(** * identity-resolver: a shallow embedding of scripts/identity.py

    The module keeps one JSON file, the identity map, and resolves a
    (channel, provider_user_id) pair to a canonical user id.  Python [str]
    values are modelled by [string] holding their UTF-8 bytes, the
    [identities] dict by an association list in insertion order, the
    filesystem and the clock by an explicit [World] threaded through every
    operation, and exceptions by the [Raise] branch of [result].  Of
    scripts/identity_cli.py the [init] command is embedded as well; the
    other commands only parse arguments, call the functions below and
    print.

    The operations are modelled over workspaces whose map file, if there is
    one, is a JSON object or makes [json.load] raise JSONDecodeError; the
    module [Disk] adds the loader and the queries over map files that are
    not text or hold a JSON scalar, where the loader raises.  Not modelled:
    file locking and concurrent callers, and I/O failures. *)

From Stdlib Require Import List String Ascii Bool Arith NArith Lia Permutation.
Import ListNotations.
Open Scope list_scope.
Open Scope string_scope.

(* ================================================================= *)
(** ** Python strings *)

Module Py.

Definition code (c : ascii) : N := N_of_ascii c.

Definition between (lo hi : N) (c : ascii) : bool :=
  (N.leb lo (code c) && N.leb (code c) hi)%bool.

Definition is_upper (c : ascii) : bool := between 65 90 c.
Definition is_lower (c : ascii) : bool := between 97 122 c.
Definition is_digit (c : ascii) : bool := between 48 57 c.

Definition lower_ascii (c : ascii) : ascii :=
  if is_upper c then ascii_of_N (code c + 32) else c.

Definition upper_ascii (c : ascii) : ascii :=
  if is_lower c then ascii_of_N (code c - 32) else c.

Definition byte_is (n : N) (c : ascii) : bool := N.eqb (code c) n.

(** [str.lower()].  ASCII letters are folded byte by byte.  Exactly two
    characters outside ASCII lower to something that contains an ASCII
    character: U+0130 (bytes C4 B0) becomes "i" followed by U+0307, and
    U+212A KELVIN SIGN (bytes E2 84 AA) becomes "k"; both are spelled out.
    Every other non-ASCII character lowers to non-ASCII characters again;
    its bytes are passed through, which is all the callers below can
    observe, since they delete every non-ASCII byte next. *)
Fixpoint lower (s : string) : string :=
  match s with
  | EmptyString => EmptyString
  | String c1 t1 =>
    match t1 with
    | String c2 t2 =>
      if (byte_is 196 c1 && byte_is 176 c2)%bool
      then String "i" (String (ascii_of_N 204) (String (ascii_of_N 135) (lower t2)))
      else
        match t2 with
        | String c3 t3 =>
          if (byte_is 226 c1 && byte_is 132 c2 && byte_is 170 c3)%bool
          then String "k" (lower t3)
          else String (lower_ascii c1) (lower t1)
        | EmptyString => String (lower_ascii c1) (lower t1)
        end
    | EmptyString => String (lower_ascii c1) EmptyString
    end
  end.

(** [re.sub(r'[^...]', '', s)] for a character class given as a predicate:
    every character outside the class is deleted. *)
Fixpoint keep (p : ascii -> bool) (s : string) : string :=
  match s with
  | EmptyString => EmptyString
  | String c t => if p c then String c (keep p t) else keep p t
  end.

Fixpoint lstrip (p : ascii -> bool) (s : string) : string :=
  match s with
  | EmptyString => EmptyString
  | String c t => if p c then lstrip p t else s
  end.

Fixpoint rstrip (p : ascii -> bool) (s : string) : string :=
  match s with
  | EmptyString => EmptyString
  | String c t =>
    match rstrip p t with
    | EmptyString => if p c then EmptyString else String c EmptyString
    | t' => String c t'
    end
  end.

(** [s.strip(chars)]: leading and trailing characters of the set go. *)
Definition strip (p : ascii -> bool) (s : string) : string :=
  rstrip p (lstrip p s).

(** [s[:n]]. *)
Fixpoint take (n : nat) (s : string) : string :=
  match n, s with
  | S n', String c t => String c (take n' t)
  | _, _ => EmptyString
  end.

(** [c in s] for a one-character [c]. *)
Fixpoint contains (c : ascii) (s : string) : bool :=
  match s with
  | EmptyString => false
  | String d t => (Ascii.eqb c d || contains c t)%bool
  end.

Definition startswith (c : ascii) (s : string) : bool :=
  match s with
  | String d _ => Ascii.eqb c d
  | EmptyString => false
  end.

(** Truth value of a string: [not s] holds of the empty string only. *)
Definition truthy (s : string) : bool :=
  match s with EmptyString => false | _ => true end.

(** [s.capitalize()] on ASCII text: first character upper-cased, the rest
    lower-cased.  It is only ever applied to sanitized identifiers. *)
Definition capitalize (s : string) : string :=
  match s with
  | EmptyString => EmptyString
  | String c t => String (upper_ascii c) (lower t)
  end.

(** [x in xs] for a list of strings. *)
Definition mem (x : string) (xs : list string) : bool :=
  existsb (String.eqb x) xs.

(** [xs.remove(x)] when [x in xs]: the first occurrence goes. *)
Fixpoint remove_first (x : string) (xs : list string) : list string :=
  match xs with
  | [] => []
  | y :: t => if String.eqb x y then t else y :: remove_first x t
  end.

End Py.

(* ================================================================= *)
(** ** Exceptions *)

Inductive exn : Type :=
| ValueError (msg : string)
| IndexError
| KeyError (key : string)
| UnicodeDecodeError
| TypeError.

Inductive result (A : Type) : Type :=
| Ok (a : A)
| Raise (e : exn).
Arguments Ok {A} a.
Arguments Raise {A} e.

(* ================================================================= *)
(** ** The canonical-id sanitizer *)

(** The character class [a-z0-9\-_]. *)
Definition allowed (c : ascii) : bool :=
  (Py.is_lower c || Py.is_digit c || Ascii.eqb c "-" || Ascii.eqb c "_")%bool.

(** The set ['-_'] handed to [strip]. *)
Definition separator (c : ascii) : bool :=
  (Ascii.eqb c "-" || Ascii.eqb c "_")%bool.

(** The value of [sanitized] when the final test of
    [_sanitize_canonical_id] is reached. *)
Definition normalize (canonical_id : string) : string :=
  let sanitized := Py.keep allowed (Py.lower canonical_id) in
  let sanitized := Py.strip separator sanitized in
  Py.take 64 sanitized.

Definition _sanitize_canonical_id (canonical_id : string) : result string :=
  let sanitized := normalize canonical_id in
  if (negb (Py.truthy sanitized) || Py.startswith "." sanitized
      || Py.contains "/" sanitized)%bool
  then Raise (ValueError ("Invalid canonical_id: " ++ canonical_id))
  else Ok sanitized.

(* ================================================================= *)
(** ** Python dicts with string keys

    A dict is kept as the list of its items in insertion order, which is the
    order [items()] walks them in.  [get] and [set] act on the first item
    carrying the key, so a list with a repeated key behaves like the dict
    made of its first occurrences. *)

Module Dict.
Section Ops.
Context {V : Type}.

(** [d.get(k)], and [d[k]] when it is [Some]. *)
Fixpoint get (k : string) (d : list (string * V)) : option V :=
  match d with
  | [] => None
  | (k', v) :: t => if String.eqb k' k then Some v else get k t
  end.

(** [k in d]. *)
Definition mem (k : string) (d : list (string * V)) : bool :=
  match get k d with Some _ => true | None => false end.

(** [d[k] = v]: an existing key keeps its place, a new one goes last. *)
Fixpoint set (k : string) (v : V) (d : list (string * V))
  : list (string * V) :=
  match d with
  | [] => [(k, v)]
  | (k', v') :: t =>
    if String.eqb k' k then (k, v) :: t else (k', v') :: set k v t
  end.

Fixpoint insert_sorted (e : string * V) (d : list (string * V))
  : list (string * V) :=
  match d with
  | [] => [e]
  | e' :: t =>
    if String.leb (fst e) (fst e') then e :: d else e' :: insert_sorted e t
  end.

(** The order in which [json.dump(..., sort_keys=True)] writes the
    items, hence the order [json.load] gives them back in. *)
Definition sort_keys (d : list (string * V)) : list (string * V) :=
  fold_right insert_sorted [] d.

Definition keys (d : list (string * V)) : list string := map fst d.

Definition count (f : string * V -> bool) (d : list (string * V)) : nat :=
  List.length (filter f d).
End Ops.
End Dict.

(* ================================================================= *)
(** ** Data model *)

(** One entry of [identities], the dict the source calls [user_data].  An
    entry carries all six fields, as every entry the code writes does; the
    defaults of [user_data.get] for a missing field are not modelled. *)
Module UserData.
Record t : Type := mk {
  canonical_id : string;
  is_owner : bool;
  display_name : string;
  channels : list string;
  created_at : string;
  updated_at : string
}.

Definition set_channels (cs : list string) (u : t) : t :=
  mk (canonical_id u) (is_owner u) (display_name u) cs
     (created_at u) (updated_at u).

Definition set_updated_at (ts : string) (u : t) : t :=
  mk (canonical_id u) (is_owner u) (display_name u) (channels u)
     (created_at u) ts.
End UserData.

Definition Identities : Type := list (string * UserData.t).

(** The dict [{"version": ..., "identities": {...}}]. *)
Record IdentityMap : Type := mkMap {
  version : option string;
  identities : Identities
}.

Definition empty_map : IdentityMap := mkMap (Some "1.0") [].

Definition set_identity (k : string) (u : UserData.t) (m : IdentityMap)
  : IdentityMap :=
  mkMap (version m) (Dict.set k u (identities m)).

(** What reading an existing identity-map.json gives: [open]/[json.load]
    raising [json.JSONDecodeError] or [IOError], or a JSON object with or
    without a "version" and an "identities" member. *)
Inductive FileContent : Type :=
| Unparseable
| Json (ver : option string) (ids : option Identities).

(** What the resolver takes from USER.md.  The regular expressions that
    scan the document belong to the owner directory and are not modelled:
    [numbers] is the list [_load_owner_numbers] returns for it, and
    [name_words] is [name_match.group(1).split()], [None] when the
    [**Name:**] pattern does not match. *)
Record UserMd : Type := mkUserMd {
  numbers : list string;
  name_words : option (list string)
}.

(** The workspace and the clock.  [utcnow n] is the text
    [datetime.now(timezone.utc).isoformat()] yields at the [n]-th reading of
    the clock, [clock] counts the readings so far and [saves] the completed
    calls of [_save_identity_map]. *)
Record World : Type := mkWorld {
  data_file : option FileContent;
  memory_file : option FileContent;
  user_md : option UserMd;
  utcnow : nat -> string;
  clock : nat;
  saves : nat
}.

(* ================================================================= *)
(** ** Operations threading the world, possibly raising *)

Definition M (A : Type) : Type := World -> result A * World.

Definition ret {A : Type} (a : A) : M A := fun w => (Ok a, w).

Definition raise {A : Type} (e : exn) : M A := fun w => (Raise e, w).

Definition bind {A B : Type} (m : M A) (k : A -> M B) : M B :=
  fun w =>
    match m w with
    | (Ok a, w') => k a w'
    | (Raise e, w') => (Raise e, w')
    end.

Notation "x <- m ;; k" := (bind m (fun x => k))
  (at level 61, m at next level, right associativity).

Definition lift {A : Type} (r : result A) : M A := fun w => (r, w).

Definition gets {A : Type} (f : World -> A) : M A := fun w => (Ok (f w), w).

(** [datetime.now(timezone.utc).isoformat() + "Z"]. *)
Definition now : M string :=
  fun w =>
    (Ok (utcnow w (clock w) ++ "Z"),
     mkWorld (data_file w) (memory_file w) (user_md w) (utcnow w)
             (S (clock w)) (saves w)).

(* ================================================================= *)
(** ** The identity store *)

Inductive MapPath : Type := DataPath | MemoryPath.

(** data/identity-map.json if it exists, else memory/identity-map.json if
    that exists, else the former. *)
Definition _get_identity_map_path (w : World) : MapPath :=
  match data_file w, memory_file w with
  | Some _, _ => DataPath
  | None, Some _ => MemoryPath
  | None, None => DataPath
  end.

Definition read_path (p : MapPath) (w : World) : option FileContent :=
  match p with DataPath => data_file w | MemoryPath => memory_file w end.

Definition _load_identity_map (w : World) : IdentityMap :=
  match read_path (_get_identity_map_path w) w with
  | None => empty_map
  | Some Unparseable => empty_map
  | Some (Json _ None) => empty_map
  | Some (Json ver (Some ids)) => mkMap ver ids
  end.

(** The temporary file is written and then renamed over the target. *)
Definition _save_identity_map (data : IdentityMap) : M unit :=
  fun w =>
    let written := Some (Json (version data)
                              (Some (Dict.sort_keys (identities data)))) in
    (Ok tt,
     match _get_identity_map_path w with
     | DataPath =>
       mkWorld written (memory_file w) (user_md w) (utcnow w)
               (clock w) (S (saves w))
     | MemoryPath =>
       mkWorld (data_file w) written (user_md w) (utcnow w)
               (clock w) (S (saves w))
     end).

Definition _load_owner_numbers (w : World) : list string :=
  match user_md w with
  | None => []
  | Some md => numbers md
  end.

(** The owner candidates the resolver tests [provider_user_id] against: the
    caller's list, or the numbers of USER.md when the caller gives none. *)
Definition owner_candidates (owner_numbers : option (list string))
    (w : World) : list string :=
  match owner_numbers with
  | Some given => given
  | None => _load_owner_numbers w
  end.

(* ================================================================= *)
(** ** The resolver *)

(** The loop "for canonical_id, user_data in items(): if channel_id in
    user_data.get("channels", []): return canonical_id". *)
Fixpoint find_mapped (channel_id : string) (ids : Identities)
  : option string :=
  match ids with
  | [] => None
  | (canonical_id, user_data) :: rest =>
    if Py.mem channel_id (UserData.channels user_data)
    then Some canonical_id
    else find_mapped channel_id rest
  end.

(** The loop that stops at the first item with a true "is_owner". *)
Fixpoint find_owner (ids : Identities) : option string :=
  match ids with
  | [] => None
  | (canonical_id, user_data) :: rest =>
    if UserData.is_owner user_data then Some canonical_id
    else find_owner rest
  end.

(** [identity_map["identities"][k]]. *)
Definition subscript (k : string) (m : IdentityMap) : M UserData.t :=
  match Dict.get k (identities m) with
  | Some user_data => ret user_data
  | None => raise (KeyError k)
  end.

(** The name chosen under "if not owner_canonical": the sanitized first word
    of the profile's name, or "owner" when there is no USER.md or no name
    in it.  [words[0]] of an empty [split()] raises [IndexError]. *)
Definition pick_owner_name (md : option UserMd) : result string :=
  match md with
  | Some doc =>
    match name_words doc with
    | Some words =>
      match words with
      | first :: _ => _sanitize_canonical_id first
      | [] => Raise IndexError
      end
    | None => Ok "owner"
    end
  | None => Ok "owner"
  end.

(** The branch under "if not owner_canonical": pick the name, then store a
    fresh owner entry under it. *)
Definition create_owner (identity_map : IdentityMap)
  : M (string * IdentityMap) :=
  md <- gets user_md ;;
  owner_canonical <- lift (pick_owner_name md) ;;
  created <- now ;;
  updated <- now ;;
  ret (owner_canonical,
       set_identity owner_canonical
         (UserData.mk owner_canonical true (Py.capitalize owner_canonical)
                      [] created updated)
         identity_map).

(** What the write-back of a changed channel list leaves of an item:
    the new list, and [updated_at] stamped. *)
Definition with_channels (cs : list string) (stamp : string)
    (user_data : UserData.t) : UserData.t :=
  UserData.set_updated_at stamp (UserData.set_channels cs user_data).

(** The tail shared by the resolver's owner branch and [add_channel]: append
    [channel_id] to the entry under [k] unless it is there, stamp and save. *)
Definition append_channel (k channel_id : string) (identity_map : IdentityMap)
  : M unit :=
  user_data <- subscript k identity_map ;;
  if negb (Py.mem channel_id (UserData.channels user_data)) then
    stamp <- now ;;
    _save_identity_map
      (set_identity k
         (with_channels (UserData.channels user_data ++ [channel_id])%list
                        stamp user_data)
         identity_map)
  else ret tt.

Definition resolve_canonical_id (channel provider_user_id : string)
    (owner_numbers : option (list string)) : M string :=
  identity_map <- gets _load_identity_map ;;
  let channel_id := channel ++ ":" ++ provider_user_id in
  match find_mapped channel_id (identities identity_map) with
  | Some canonical_id => ret canonical_id
  | None =>
    owner_numbers <- gets (owner_candidates owner_numbers) ;;
    if Py.mem provider_user_id owner_numbers then
      found <-
        match find_owner (identities identity_map) with
        | Some owner_canonical =>
          if Py.truthy owner_canonical
          then ret (owner_canonical, identity_map)
          else create_owner identity_map
        | None => create_owner identity_map
        end ;;
      _ <- append_channel (fst found) channel_id (snd found) ;;
      ret (fst found)
    else ret ("stranger:" ++ channel ++ ":" ++ provider_user_id)
  end.

(* ================================================================= *)
(** ** The channel manager *)

(** [display_name or canonical_id.capitalize()]. *)
Definition default_display_name (display_name : option string)
    (canonical_id : string) : string :=
  match display_name with
  | Some name => if Py.truthy name then name else Py.capitalize canonical_id
  | None => Py.capitalize canonical_id
  end.

Definition add_channel (canonical_id channel provider_user_id : string)
    (display_name : option string) : M unit :=
  canonical_id <- lift (_sanitize_canonical_id canonical_id) ;;
  identity_map <- gets _load_identity_map ;;
  let channel_id := channel ++ ":" ++ provider_user_id in
  identity_map <-
    (if negb (Dict.mem canonical_id (identities identity_map)) then
       created <- now ;;
       updated <- now ;;
       ret (set_identity canonical_id
              (UserData.mk canonical_id false
                 (default_display_name display_name canonical_id)
                 [] created updated)
              identity_map)
     else ret identity_map) ;;
  append_channel canonical_id channel_id identity_map.

Definition remove_channel (canonical_id channel provider_user_id : string)
  : M unit :=
  canonical_id <- lift (_sanitize_canonical_id canonical_id) ;;
  identity_map <- gets _load_identity_map ;;
  let channel_id := channel ++ ":" ++ provider_user_id in
  if Dict.mem canonical_id (identities identity_map) then
    user_data <- subscript canonical_id identity_map ;;
    if Py.mem channel_id (UserData.channels user_data) then
      stamp <- now ;;
      _save_identity_map
        (set_identity canonical_id
           (with_channels
              (Py.remove_first channel_id (UserData.channels user_data))
              stamp user_data)
           identity_map)
    else ret tt
  else ret tt.

Definition list_identities : M Identities :=
  gets (fun w => identities (_load_identity_map w)).

Definition get_channels (canonical_id : string) : M (list string) :=
  canonical_id <- lift (_sanitize_canonical_id canonical_id) ;;
  identity_map <- gets _load_identity_map ;;
  match Dict.get canonical_id (identities identity_map) with
  | Some user_data => ret (UserData.channels user_data)
  | None => ret []
  end.

Definition is_owner (canonical_id : string) : M bool :=
  canonical_id <- lift (_sanitize_canonical_id canonical_id) ;;
  identity_map <- gets _load_identity_map ;;
  match Dict.get canonical_id (identities identity_map) with
  | Some user_data => ret (UserData.is_owner user_data)
  | None => ret false
  end.

(** The store an operation finds when it starts in [w]. *)
Definition store (w : World) : Identities := identities (_load_identity_map w).

(** A workspace holding nothing but, possibly, USER.md. *)
Definition fresh (md : option UserMd) (tick : nat -> string) : World :=
  mkWorld None None md tick 0 0.

(** USER.md edited between two calls. *)
Definition edit_user_md (md : option UserMd) (w : World) : World :=
  mkWorld (data_file w) (memory_file w) md (utcnow w) (clock w) (saves w).

(* ================================================================= *)
(** ** The map file as bytes

    [FileContent] describes a map file by what [open] and [json.load] make
    of it in the cases the rest of [_load_identity_map] deals with.  Two
    more outcomes escape its handler, which names [json.JSONDecodeError]
    and [IOError] only: bytes that are not text in the locale's encoding
    make [json.load] raise UnicodeDecodeError, and a JSON value that is
    null, a boolean or a number makes the test ["identities" not in data]
    raise TypeError.  [Disk] gives the loader and the three queries over map
    files that may be of these two kinds as well.  JSON arrays and strings
    at top level, and objects whose members are not of the schema's types,
    stay outside. *)

Module Disk.

Inductive MapFile : Type :=
| NotText
| Scalar
| Parsed (content : FileContent).

(** The two places a map file can be in. *)
Record t : Type := mk {
  data_bytes : option MapFile;
  memory_bytes : option MapFile
}.

Definition _get_identity_map_path (d : t) : MapPath :=
  match data_bytes d, memory_bytes d with
  | Some _, _ => DataPath
  | None, Some _ => MemoryPath
  | None, None => DataPath
  end.

Definition read_path (p : MapPath) (d : t) : option MapFile :=
  match p with DataPath => data_bytes d | MemoryPath => memory_bytes d end.

Definition _load_identity_map (d : t) : result IdentityMap :=
  match read_path (_get_identity_map_path d) d with
  | None => Ok empty_map
  | Some NotText => Raise UnicodeDecodeError
  | Some Scalar => Raise TypeError
  | Some (Parsed Unparseable) => Ok empty_map
  | Some (Parsed (Json _ None)) => Ok empty_map
  | Some (Parsed (Json ver (Some ids))) => Ok (mkMap ver ids)
  end.

Definition list_identities (d : t) : result Identities :=
  match _load_identity_map d with
  | Ok identity_map => Ok (identities identity_map)
  | Raise e => Raise e
  end.

Definition get_channels (canonical_id : string) (d : t)
  : result (list string) :=
  match _sanitize_canonical_id canonical_id with
  | Ok canonical_id =>
    match _load_identity_map d with
    | Ok identity_map =>
      match Dict.get canonical_id (identities identity_map) with
      | Some user_data => Ok (UserData.channels user_data)
      | None => Ok []
      end
    | Raise e => Raise e
    end
  | Raise e => Raise e
  end.

Definition is_owner (canonical_id : string) (d : t) : result bool :=
  match _sanitize_canonical_id canonical_id with
  | Ok canonical_id =>
    match _load_identity_map d with
    | Ok identity_map =>
      match Dict.get canonical_id (identities identity_map) with
      | Some user_data => Ok (UserData.is_owner user_data)
      | None => Ok false
      end
    | Raise e => Raise e
    end
  | Raise e => Raise e
  end.

End Disk.

(** The map files of a workspace whose files [open] and [json.load] get
    through, as bytes. *)
Definition disk_of_world (w : World) : Disk.t :=
  Disk.mk (option_map Disk.Parsed (data_file w))
          (option_map Disk.Parsed (memory_file w)).

(** A data/identity-map.json of bytes that are not text, and one holding
    the JSON text "null". *)
Definition undecodable_disk : Disk.t := Disk.mk (Some Disk.NotText) None.
Definition null_disk : Disk.t := Disk.mk (Some Disk.Scalar) None.

(* ================================================================= *)
(** ** The command line: init *)

(** The lines [cmd_init] prints, one constructor per format string:
    "Identity map already exists at <path>", "Use --force to reinitialize",
    "Initialized identity map at <path>", "Owner canonical ID: <id>" where
    the id is the lowered first word [first] of the profile name, and
    "Owner will auto-register on first use". *)
Inductive Line : Type :=
| AlreadyExists (map_path : MapPath)
| UseForce
| Initialized (map_path : MapPath)
| OwnerId (first : string)
| OwnerAuto.

(** [map_path.exists()]. *)
Definition path_exists (p : MapPath) (w : World) : bool :=
  match read_path p w with
  | Some _ => true
  | None => false
  end.

(** [open(map_path, 'w')] followed by [json.dump] of [content]. *)
Definition write_path (p : MapPath) (content : FileContent) (w : World)
  : World :=
  match p with
  | DataPath =>
    mkWorld (Some content) (memory_file w) (user_md w) (utcnow w)
            (clock w) (saves w)
  | MemoryPath =>
    mkWorld (data_file w) (Some content) (user_md w) (utcnow w)
            (clock w) (saves w)
  end.

(** [cmd_init(args)] of identity_cli.py with [args.force = force]: the
    lines printed, the exit code returned or the exception raised, and the
    workspace left behind. *)
Definition cmd_init (force : bool) (w : World)
  : list Line * result nat * World :=
  let map_path := _get_identity_map_path w in
  if (path_exists map_path w && negb force)%bool
  then ([AlreadyExists map_path; UseForce], Ok 1, w)
  else
    let w1 := write_path map_path (Json (Some "1.0") (Some [])) w in
    match user_md w with
    | Some doc =>
      match name_words doc with
      | Some words =>
        match words with
        | first :: _ =>
          ([Initialized map_path; OwnerId first; OwnerAuto], Ok 0, w1)
        | [] => ([Initialized map_path], Raise IndexError, w1)
        end
      | None => ([Initialized map_path], Ok 0, w1)
      end
    | None => ([Initialized map_path], Ok 0, w1)
    end.

(* ================================================================= *)
(** ** Properties of a string *)

(** Every character of [s] satisfies [p]. *)
Fixpoint all_chars (p : ascii -> bool) (s : string) : bool :=
  match s with
  | EmptyString => true
  | String c t => (p c && all_chars p t)%bool
  end.

(** The first character of [s] satisfies [p]. *)
Definition starts_in (p : ascii -> bool) (s : string) : bool :=
  match s with
  | EmptyString => false
  | String c _ => p c
  end.

(** The last character of [s] satisfies [p]. *)
Fixpoint ends_in (p : ascii -> bool) (s : string) : bool :=
  match s with
  | EmptyString => false
  | String c EmptyString => p c
  | String _ t => ends_in p t
  end.

(** An id in the sanitizer's normal form: characters of [a-z0-9\-_] only,
    at least one and at most 64 of them, no hyphen or underscore at either
    end. *)
Definition well_formed_id (k : string) : Prop :=
  all_chars allowed k = true /\ k <> "" /\ String.length k <= 64 /\
  starts_in separator k = false /\ ends_in separator k = false.

(* ================================================================= *)
(** ** Properties of a store *)

(** The item [e] has [channel_id] among its channels. *)
Definition holds (channel_id : string) (e : string * UserData.t) : bool :=
  Py.mem channel_id (UserData.channels (snd e)).

Definition owns (e : string * UserData.t) : bool := UserData.is_owner (snd e).

(** Global channel uniqueness: no channel string is held by two items. *)
Definition channel_unique (ids : Identities) : Prop :=
  forall channel_id, Dict.count (holds channel_id) ids <= 1.

Definition at_most_one_owner (ids : Identities) : Prop :=
  Dict.count owns ids <= 1.

(** Every canonical id used as a key is a non-empty string. *)
Definition keys_nonempty (ids : Identities) : Prop :=
  forall k, In k (Dict.keys ids) -> k <> "".

(** The keys come in the order [sort_keys=True] writes them in. *)
Fixpoint keys_sorted (ids : Identities) : bool :=
  match ids with
  | [] => true
  | e :: rest =>
    match rest with
    | [] => true
    | e' :: _ => (String.leb (fst e) (fst e') && keys_sorted rest)%bool
    end
  end.

(** An item as the code writes it: filed under its own [canonical_id],
    which has the shape the sanitizer gives, and listing no channel string
    twice. *)
Definition entry_ok (e : string * UserData.t) : Prop :=
  UserData.canonical_id (snd e) = fst e /\
  (all_chars allowed (fst e) = true /\ fst e <> "" /\
   String.length (fst e) <= 64 /\ starts_in separator (fst e) = false) /\
  NoDup (UserData.channels (snd e)).

(** Worlds the public mutators lead to from a workspace without a map. *)
Inductive reachable : World -> Prop :=
| reach_fresh w :
    data_file w = None -> memory_file w = None -> reachable w
| reach_profile md w :
    reachable w -> reachable (edit_user_md md w)
| reach_resolve channel provider_user_id owner_numbers w :
    reachable w ->
    reachable (snd (resolve_canonical_id channel provider_user_id
                                         owner_numbers w))
| reach_add canonical_id channel provider_user_id display_name w :
    reachable w ->
    reachable (snd (add_channel canonical_id channel provider_user_id
                                display_name w))
| reach_remove canonical_id channel provider_user_id w :
    reachable w ->
    reachable (snd (remove_channel canonical_id channel provider_user_id w)).

(** [add_channel canonical_id channel provider_user_id] is asked for a
    channel string that no item other than the target holds. *)
Definition add_guard (canonical_id channel provider_user_id : string)
    (ids : Identities) : Prop :=
  forall k u,
    In (k, u) ids ->
    In (channel ++ ":" ++ provider_user_id) (UserData.channels u) ->
    _sanitize_canonical_id canonical_id = Ok k.

(** As [reachable], with every [add_channel] under [add_guard]. *)
Inductive reachable_guarded : World -> Prop :=
| guarded_fresh w :
    data_file w = None -> memory_file w = None -> reachable_guarded w
| guarded_profile md w :
    reachable_guarded w -> reachable_guarded (edit_user_md md w)
| guarded_resolve channel provider_user_id owner_numbers w :
    reachable_guarded w ->
    reachable_guarded (snd (resolve_canonical_id channel provider_user_id
                                                 owner_numbers w))
| guarded_add canonical_id channel provider_user_id display_name w :
    reachable_guarded w ->
    add_guard canonical_id channel provider_user_id (store w) ->
    reachable_guarded (snd (add_channel canonical_id channel provider_user_id
                                        display_name w))
| guarded_remove canonical_id channel provider_user_id w :
    reachable_guarded w ->
    reachable_guarded (snd (remove_channel canonical_id channel
                                           provider_user_id w)).

(** A clock for examples: every reading gives the same instant. *)
Definition frozen_clock (n : nat) : string := "2026-01-01T00:00:00+00:00".

(** The text the clock yields at its [n]-th next reading in [w]. *)
Definition stamp_at (w : World) (n : nat) : string :=
  utcnow w (clock w + n) ++ "Z".

(** The world after [n] readings of the clock. *)
Definition ticked (n : nat) (w : World) : World :=
  mkWorld (data_file w) (memory_file w) (user_md w) (utcnow w)
          (n + clock w) (saves w).

(** The entry the resolver stores for an owner it registers under [oc]. *)
Definition fresh_owner (oc : string) (w : World) : UserData.t :=
  UserData.mk oc true (Py.capitalize oc) [] (stamp_at w 0) (stamp_at w 1).

(** The entry [add_channel] stores for an id it has not seen. *)
Definition fresh_user (k : string) (display_name : option string)
    (w : World) : UserData.t :=
  UserData.mk k false (default_display_name display_name k) []
              (stamp_at w 0) (stamp_at w 1).

(** What [get_channels] reads for the key [k]: the entry's channels, or
    the empty list when there is no entry. *)
Definition channels_of (k : string) (ids : Identities) : list string :=
  match Dict.get k ids with
  | Some user_data => UserData.channels user_data
  | None => []
  end.

(** The outcome [(r, w')] of a resolver call started in [w] registered a new
    owner under [oc] for the channel string [c]: [oc] is returned, the
    entry under [oc] is the new owner entry holding just [c], the other
    keys map to what they did, and the map was saved once. *)
Definition owner_registered (oc c : string) (w : World)
    (out : result string * World) : Prop :=
  fst out = Ok oc /\
  Dict.get oc (store (snd out))
  = Some (UserData.mk oc true (Py.capitalize oc) [c]
                      (stamp_at w 0) (stamp_at w 2)) /\
  (forall k, k <> oc ->
     Dict.get k (store (snd out)) = Dict.get k (store w)) /\
  saves (snd out) = S (saves w).

(* ================================================================= *)
(** ** Example workspaces *)

(** ["c" * n]. *)
Fixpoint repeated (c : ascii) (n : nat) : string :=
  match n with
  | O => EmptyString
  | S n' => String c (repeated c n')
  end.

(** An id whose first 64 characters end in a hyphen. *)
Definition long_id : string := repeated "a" 63 ++ "-b".

(** USER.md with the line "**Name:** Test User". *)
Definition named_profile : UserMd :=
  mkUserMd ["1234567"] (Some ["Test"; "User"]).

(** USER.md with the line "**Name:** ...". *)
Definition dotted_profile : UserMd :=
  mkUserMd ["1234567"] (Some ["..."]).

(** A workspace whose data/identity-map.json holds [ids]. *)
Definition holding (ids : Identities) (md : option UserMd) : World :=
  mkWorld (Some (Json (Some "1.0") (Some ids))) None md frozen_clock 0 0.

(** A workspace whose data/identity-map.json is not JSON. *)
Definition corrupted : World :=
  mkWorld (Some Unparseable) None None frozen_clock 0 0.

(** Two calls of [add_channel] handing one channel to two ids. *)
Definition two_claimants : World :=
  snd (add_channel "bob" "tg" "1" None
         (snd (add_channel "alice" "tg" "1" None (fresh None frozen_clock)))).


(** A map in which the id "owner" names an ordinary user. *)
Definition squatted : World :=
  holding [("owner", UserData.mk "owner" false "Owner" ["tg:5"]
                                 "2026-01-01T00:00:00+00:00Z"
                                 "2026-01-01T00:00:00+00:00Z")] None.

(** A map with one owner, "test", reached on telegram. *)
Definition owned : World :=
  holding [("test", UserData.mk "test" true "Test" ["telegram:1234567"]
                                "2026-01-01T00:00:00+00:00Z"
                                "2026-01-01T00:00:00+00:00Z")]
          (Some named_profile).

(* ================================================================= *)
(** * Facts about dicts *)

Section DictFacts.
Context {V : Type}.
Implicit Types (d : list (string * V)) (k : string) (v : V).
Implicit Types (f : string * V -> bool).

Lemma get_set_same k v d : Dict.get k (Dict.set k v d) = Some v.
Proof.
  induction d as [|[k' v'] t IH]; simpl.
  - now rewrite String.eqb_refl.
  - destruct (String.eqb k' k) eqn:E; simpl.
    + now rewrite String.eqb_refl.
    + now rewrite E.
Qed.

Lemma get_set_other k k' v d :
  k' <> k -> Dict.get k' (Dict.set k v d) = Dict.get k' d.
Proof.
  intros Hne. induction d as [|[k0 v0] t IH]; simpl.
  - destruct (String.eqb_spec k k'); congruence.
  - destruct (String.eqb_spec k0 k) as [->|Hk]; simpl.
    + destruct (String.eqb_spec k k'); congruence.
    + now rewrite IH.
Qed.

Lemma get_in k v d : Dict.get k d = Some v -> In (k, v) d.
Proof.
  induction d as [|[k' v'] t IH]; simpl; [discriminate|].
  destruct (String.eqb_spec k' k) as [->|Hk].
  - intros [= ->]. now left.
  - intros H. right. now apply IH.
Qed.

Lemma get_none k d : Dict.get k d = None <-> ~ In k (Dict.keys d).
Proof.
  induction d as [|[k' v'] t IH]; simpl.
  - intuition.
  - destruct (String.eqb_spec k' k) as [->|Hk].
    + split; [discriminate|]. intros H. exfalso. apply H. now left.
    + rewrite IH. intuition.
Qed.

Lemma in_get k v d :
  NoDup (Dict.keys d) -> In (k, v) d -> Dict.get k d = Some v.
Proof.
  induction d as [|[k' v'] t IH]; simpl; [easy|].
  intros Hnd [Heq|Hin]; inversion Hnd as [|? ? Hnotin Hnd']; subst.
  - injection Heq as -> ->. now rewrite String.eqb_refl.
  - destruct (String.eqb_spec k' k) as [->|Hk].
    + exfalso. apply Hnotin. apply (in_map fst) in Hin. exact Hin.
    + now apply IH.
Qed.

Lemma mem_true k d : Dict.mem k d = true <-> In k (Dict.keys d).
Proof.
  unfold Dict.mem. destruct (Dict.get k d) eqn:E.
  - split; [intros _|easy]. apply get_in in E.
    apply (in_map fst) in E. exact E.
  - split; [discriminate|]. intros H. now apply get_none in E.
Qed.

Lemma keys_set k v d :
  Dict.keys (Dict.set k v d)
  = if Dict.mem k d then Dict.keys d else (Dict.keys d ++ [k])%list.
Proof.
  unfold Dict.mem.
  induction d as [|[k' v'] t IH]; simpl; [reflexivity|].
  destruct (String.eqb_spec k' k) as [->|Hk]; simpl; [reflexivity|].
  rewrite IH. now destruct (Dict.get k t).
Qed.

Lemma NoDup_keys_set k v d :
  NoDup (Dict.keys d) -> NoDup (Dict.keys (Dict.set k v d)).
Proof.
  intros Hnd. rewrite keys_set. destruct (Dict.mem k d) eqn:E; [exact Hnd|].
  apply NoDup_app; [exact Hnd | constructor; [easy|constructor] |].
  - intros x Hx [<-|[]].
    apply mem_true in Hx. congruence.
Qed.

Lemma in_keys_set k k' v d :
  In k' (Dict.keys (Dict.set k v d)) -> k' = k \/ In k' (Dict.keys d).
Proof.
  rewrite keys_set. destruct (Dict.mem k d); [now right|].
  rewrite in_app_iff. simpl. intuition.
Qed.

Lemma length_set k v d :
  List.length (Dict.set k v d)
  = if Dict.mem k d then List.length d else S (List.length d).
Proof.
  unfold Dict.mem.
  induction d as [|[k' v'] t IH]; simpl; [reflexivity|].
  destruct (String.eqb_spec k' k) as [->|Hk]; simpl; [reflexivity|].
  rewrite IH. now destruct (Dict.get k t).
Qed.

(** Replacing the value under [k] moves the count of a property by the
    difference between the old and the new item. *)
Lemma count_set f k v d :
  Dict.count f (Dict.set k v d)
  + Nat.b2n (match Dict.get k d with Some o => f (k, o) | None => false end)
  = Dict.count f d + Nat.b2n (f (k, v)).
Proof.
  unfold Dict.count.
  induction d as [|[k' v'] t IH]; simpl.
  - destruct (f (k, v)); simpl; lia.
  - destruct (String.eqb_spec k' k) as [->|Hk]; simpl.
    + destruct (f (k, v)), (f (k, v')); simpl; lia.
    + destruct (f (k', v')); simpl; lia.
Qed.

Lemma count_zero f d :
  Dict.count f d = 0 <-> (forall e, In e d -> f e = false).
Proof.
  unfold Dict.count. induction d as [|e t IH]; simpl.
  - intuition.
  - destruct (f e) eqn:E; simpl.
    + split; [discriminate|]. intros H. specialize (H e (or_introl eq_refl)).
      congruence.
    + rewrite IH. split.
      * intros H e' [<-|Hin]; auto.
      * intros H e' Hin. apply H. now right.
Qed.

(** At most one item has the property: two items that have it coincide. *)
Lemma count_le_one_unique f d e1 e2 :
  Dict.count f d <= 1 ->
  In e1 d -> In e2 d -> f e1 = true -> f e2 = true -> e1 = e2.
Proof.
  unfold Dict.count. induction d as [|e t IH]; simpl; [easy|].
  intros Hc H1 H2 F1 F2.
  destruct (f e) eqn:E; simpl in Hc.
  - assert (Hz : Dict.count f t = 0) by (unfold Dict.count; lia).
    rewrite count_zero in Hz.
    destruct H1 as [<-|H1]; [|apply Hz in H1; congruence].
    destruct H2 as [<-|H2]; [reflexivity|apply Hz in H2; congruence].
  - destruct H1 as [<-|H1]; [congruence|].
    destruct H2 as [<-|H2]; [congruence|].
    now apply IH.
Qed.

Lemma get_insert_sorted k e d :
  Dict.get k (Dict.insert_sorted e d)
  = if String.eqb (fst e) k then Some (snd e) else Dict.get k d.
Proof.
  destruct e as [ke ve]. simpl.
  induction d as [|[k' v'] t IH]; simpl; [reflexivity|].
  destruct (String.leb ke k') eqn:L; simpl; [reflexivity|].
  rewrite IH.
  destruct (String.eqb_spec k' k) as [->|Hk]; [|reflexivity].
  destruct (String.eqb_spec ke k) as [->|Hke]; [|reflexivity].
  destruct (String.leb_total k k); congruence.
Qed.

(** Sorting the keys does not change what a key maps to. *)
Lemma get_sort_keys k d : Dict.get k (Dict.sort_keys d) = Dict.get k d.
Proof.
  induction d as [|[k' v'] t IH]; simpl; [reflexivity|].
  rewrite get_insert_sorted. simpl. now rewrite IH.
Qed.

Lemma perm_insert_sorted e d : Permutation (Dict.insert_sorted e d) (e :: d).
Proof.
  induction d as [|e' t IH]; simpl; [reflexivity|].
  destruct (String.leb (fst e) (fst e')); [reflexivity|].
  rewrite IH. apply perm_swap.
Qed.

Lemma perm_sort_keys d : Permutation (Dict.sort_keys d) d.
Proof.
  induction d as [|e t IH]; simpl; [reflexivity|].
  rewrite perm_insert_sorted. now constructor.
Qed.

Lemma count_perm f d d' :
  Permutation d d' -> Dict.count f d = Dict.count f d'.
Proof.
  unfold Dict.count. induction 1; simpl.
  - reflexivity.
  - destruct (f x); simpl; congruence.
  - destruct (f x), (f y); reflexivity.
  - congruence.
Qed.

Lemma count_sort_keys f d : Dict.count f (Dict.sort_keys d) = Dict.count f d.
Proof. apply count_perm, perm_sort_keys. Qed.

Lemma NoDup_keys_sort d :
  NoDup (Dict.keys d) -> NoDup (Dict.keys (Dict.sort_keys d)).
Proof.
  intros H. eapply Permutation_NoDup; [|exact H].
  unfold Dict.keys. apply Permutation_map. symmetry. apply perm_sort_keys.
Qed.

Lemma in_sort_keys e d : In e (Dict.sort_keys d) <-> In e d.
Proof.
  split; apply Permutation_in; [|symmetry]; apply perm_sort_keys.
Qed.

Lemma length_sort_keys d : List.length (Dict.sort_keys d) = List.length d.
Proof. apply Permutation_length, perm_sort_keys. Qed.

End DictFacts.

(* ================================================================= *)
(** * Facts about stores *)

Lemma mem_In x xs : Py.mem x xs = true <-> In x xs.
Proof.
  unfold Py.mem. rewrite existsb_exists. split.
  - intros [y [Hy E]]. apply String.eqb_eq in E. now subst.
  - intros H. exists x. split; [exact H | apply String.eqb_refl].
Qed.

Lemma mem_false x xs : Py.mem x xs = false <-> ~ In x xs.
Proof.
  rewrite <- mem_In. destruct (Py.mem x xs); intuition congruence.
Qed.

Lemma mem_app x xs ys :
  Py.mem x (xs ++ ys)%list = (Py.mem x xs || Py.mem x ys)%bool.
Proof. unfold Py.mem. apply existsb_app. Qed.

Lemma in_remove_first x y xs : In x (Py.remove_first y xs) -> In x xs.
Proof.
  induction xs as [|z t IH]; simpl; [easy|].
  destruct (String.eqb y z); simpl; intuition.
Qed.

Lemma find_mapped_none c ids :
  find_mapped c ids = None <-> Dict.count (holds c) ids = 0.
Proof.
  unfold Dict.count, holds.
  induction ids as [|[k u] t IH]; simpl; [intuition|].
  destruct (Py.mem c (UserData.channels u)); simpl; [|exact IH].
  split; discriminate.
Qed.

Lemma find_mapped_some c ids k :
  find_mapped c ids = Some k ->
  exists u, In (k, u) ids /\ In c (UserData.channels u).
Proof.
  induction ids as [|[k' u'] t IH]; simpl; [discriminate|].
  destruct (Py.mem c (UserData.channels u')) eqn:E.
  - intros [= ->]. exists u'. split; [now left | now apply mem_In].
  - intros H. destruct (IH H) as [u [Hin Hc]]. exists u. auto.
Qed.

Lemma find_owner_none ids :
  find_owner ids = None <-> Dict.count owns ids = 0.
Proof.
  unfold Dict.count, owns.
  induction ids as [|[k u] t IH]; simpl; [intuition|].
  destruct (UserData.is_owner u); simpl; [|exact IH].
  split; discriminate.
Qed.

Lemma find_owner_some ids k :
  find_owner ids = Some k ->
  exists u, In (k, u) ids /\ UserData.is_owner u = true.
Proof.
  induction ids as [|[k' u'] t IH]; simpl; [discriminate|].
  destruct (UserData.is_owner u') eqn:E.
  - intros [= ->]. exists u'. split; [now left | exact E].
  - intros H. destruct (IH H) as [u [Hin Hc]]. exists u. auto.
Qed.

Lemma find_owner_key ids k :
  find_owner ids = Some k -> exists u, Dict.get k ids = Some u.
Proof.
  intros H. destruct (find_owner_some _ _ H) as [u [Hin _]].
  destruct (Dict.get k ids) eqn:E; [eauto|].
  apply get_none in E. exfalso. apply E.
  apply (in_map fst) in Hin. exact Hin.
Qed.

Section Invariants.
Variables (ids : Identities) (k : string) (u u' : UserData.t).

(** A fresh item without channels never adds a holder. *)
Lemma unique_create :
  channel_unique ids -> UserData.channels u' = [] ->
  channel_unique (Dict.set k u' ids).
Proof.
  intros Hu Hc c. specialize (Hu c).
  pose proof (count_set (holds c) k u' ids) as E.
  change (holds c (k, u')) with (Py.mem c (UserData.channels u')) in E.
  rewrite Hc in E. simpl in E. lia.
Qed.

Lemma holders_create c :
  Dict.count (holds c) ids = 0 -> UserData.channels u' = [] ->
  Dict.count (holds c) (Dict.set k u' ids) = 0.
Proof.
  intros Hz Hc.
  pose proof (count_set (holds c) k u' ids) as E.
  change (holds c (k, u')) with (Py.mem c (UserData.channels u')) in E.
  rewrite Hc in E. simpl in E. lia.
Qed.

(** Appending a channel nobody holds keeps the holders unique. *)
Lemma unique_append c :
  channel_unique ids -> Dict.get k ids = Some u ->
  Dict.count (holds c) ids = 0 ->
  UserData.channels u' = (UserData.channels u ++ [c])%list ->
  channel_unique (Dict.set k u' ids).
Proof.
  intros Hu Hg Hz Hc c'. specialize (Hu c').
  pose proof (count_set (holds c') k u' ids) as E.
  rewrite Hg in E.
  change (holds c' (k, u')) with (Py.mem c' (UserData.channels u')) in E.
  change (holds c' (k, u)) with (Py.mem c' (UserData.channels u)) in E.
  rewrite Hc, mem_app in E. simpl in E. rewrite orb_false_r in E.
  destruct (String.eqb_spec c' c) as [->|Hne].
  - destruct (Py.mem c (UserData.channels u)); simpl in E; lia.
  - rewrite orb_false_r in E.
    destruct (Py.mem c' (UserData.channels u)); simpl in E; lia.
Qed.

Lemma unique_remove c :
  channel_unique ids -> Dict.get k ids = Some u ->
  UserData.channels u' = Py.remove_first c (UserData.channels u) ->
  channel_unique (Dict.set k u' ids).
Proof.
  intros Hu Hg Hc c'. specialize (Hu c').
  pose proof (count_set (holds c') k u' ids) as E.
  rewrite Hg in E.
  change (holds c' (k, u')) with (Py.mem c' (UserData.channels u')) in E.
  change (holds c' (k, u)) with (Py.mem c' (UserData.channels u)) in E.
  rewrite Hc in E.
  destruct (Py.mem c' (Py.remove_first c (UserData.channels u))) eqn:M.
  - apply mem_In, in_remove_first, mem_In in M. rewrite M in E.
    simpl in E. lia.
  - simpl in E. lia.
Qed.

(** Changing an item without touching its owner flag keeps the count. *)
Lemma owners_same :
  Dict.get k ids = Some u ->
  UserData.is_owner u' = UserData.is_owner u ->
  Dict.count owns (Dict.set k u' ids) = Dict.count owns ids.
Proof.
  intros Hg Ho.
  pose proof (count_set owns k u' ids) as E.
  rewrite Hg in E.
  change (owns (k, u')) with (UserData.is_owner u') in E.
  change (owns (k, u)) with (UserData.is_owner u) in E.
  rewrite Ho in E. lia.
Qed.

Lemma owners_create_plain :
  UserData.is_owner u' = false ->
  Dict.count owns (Dict.set k u' ids) <= Dict.count owns ids.
Proof.
  intros Ho.
  pose proof (count_set owns k u' ids) as E.
  change (owns (k, u')) with (UserData.is_owner u') in E.
  rewrite Ho in E. simpl in E. lia.
Qed.

Lemma owners_create_first :
  Dict.count owns ids = 0 ->
  Dict.count owns (Dict.set k u' ids) <= 1.
Proof.
  intros Hz.
  pose proof (count_set owns k u' ids) as E.
  destruct (owns (k, u')); simpl in E; lia.
Qed.

End Invariants.

Lemma unique_sort ids :
  channel_unique ids -> channel_unique (Dict.sort_keys ids).
Proof. intros H c. rewrite count_sort_keys. apply H. Qed.

(* ================================================================= *)
(** * What the operations do to the world *)

Lemma store_ticked n w : store (ticked n w) = store w.
Proof. reflexivity. Qed.

Lemma now_run w : now w = (Ok (stamp_at w 0), ticked 1 w).
Proof. unfold now, stamp_at, ticked. now rewrite Nat.add_0_r. Qed.

Lemma ticked_ticked n m w : ticked n (ticked m w) = ticked (n + m) w.
Proof. unfold ticked. simpl. now rewrite Nat.add_assoc. Qed.

Lemma stamp_ticked n m w : stamp_at (ticked m w) n = stamp_at w (m + n).
Proof.
  unfold stamp_at, ticked. simpl. do 2 f_equal. lia.
Qed.

Lemma load_save data w :
  _load_identity_map (snd (_save_identity_map data w))
  = mkMap (version data) (Dict.sort_keys (identities data)).
Proof.
  unfold _save_identity_map, _load_identity_map, _get_identity_map_path.
  destruct (data_file w) eqn:D, (memory_file w) eqn:Me; simpl;
    rewrite ?D, ?Me; reflexivity.
Qed.

Lemma store_save data w :
  store (snd (_save_identity_map data w)) = Dict.sort_keys (identities data).
Proof. unfold store. now rewrite load_save. Qed.

Lemma saves_save data w : saves (snd (_save_identity_map data w)) = S (saves w).
Proof.
  unfold _save_identity_map. simpl.
  now destruct (_get_identity_map_path w).
Qed.

Lemma fst_save data w : fst (_save_identity_map data w) = Ok tt.
Proof. reflexivity. Qed.

(** [append_channel] on an entry that exists. *)
Lemma append_channel_run k c m w u :
  Dict.get k (identities m) = Some u ->
  append_channel k c m w
  = if Py.mem c (UserData.channels u) then (Ok tt, w)
    else _save_identity_map
           (set_identity k
              (with_channels (UserData.channels u ++ [c])%list
                             (stamp_at w 0) u) m)
           (ticked 1 w).
Proof.
  intros Hg. unfold append_channel, subscript, bind. rewrite Hg.
  unfold ret. destruct (Py.mem c (UserData.channels u)); simpl; [reflexivity|].
  unfold now, stamp_at, ticked. now rewrite Nat.add_0_r.
Qed.

Lemma create_owner_run m w :
  create_owner m w
  = match pick_owner_name (user_md w) with
    | Ok oc => (Ok (oc, set_identity oc (fresh_owner oc w) m), ticked 2 w)
    | Raise e => (Raise e, w)
    end.
Proof.
  unfold create_owner, bind, gets, lift.
  destruct (pick_owner_name (user_md w)) as [oc|e]; [|reflexivity].
  unfold now, ret, fresh_owner, stamp_at, ticked. simpl.
  now rewrite Nat.add_0_r, Nat.add_1_r.
Qed.

Lemma unmapped_not_held c ids k u :
  find_mapped c ids = None -> Dict.get k ids = Some u ->
  Py.mem c (UserData.channels u) = false.
Proof.
  intros Hf Hg. apply find_mapped_none in Hf.
  rewrite count_zero in Hf. apply get_in in Hg.
  exact (Hf _ Hg).
Qed.

(** The resolver, branch by branch. *)
Lemma resolve_mapped channel pid on w k :
  find_mapped (channel ++ ":" ++ pid) (store w) = Some k ->
  resolve_canonical_id channel pid on w = (Ok k, w).
Proof.
  intros H. unfold store in H.
  unfold resolve_canonical_id, bind, gets. now rewrite H.
Qed.

Lemma resolve_stranger channel pid on w :
  find_mapped (channel ++ ":" ++ pid) (store w) = None ->
  Py.mem pid (owner_candidates on w) = false ->
  resolve_canonical_id channel pid on w
  = (Ok ("stranger:" ++ channel ++ ":" ++ pid), w).
Proof.
  intros H Hc. unfold store in H.
  unfold resolve_canonical_id, bind, gets. now rewrite H, Hc.
Qed.

Lemma resolve_reuse channel pid on w oc u :
  find_mapped (channel ++ ":" ++ pid) (store w) = None ->
  Py.mem pid (owner_candidates on w) = true ->
  find_owner (store w) = Some oc -> oc <> "" ->
  Dict.get oc (store w) = Some u ->
  resolve_canonical_id channel pid on w
  = (Ok oc,
     snd (_save_identity_map
            (set_identity oc
               (with_channels
                  (UserData.channels u ++ [(channel ++ ":" ++ pid)%string])%list
                  (stamp_at w 0) u)
               (_load_identity_map w))
            (ticked 1 w))).
Proof.
  intros H Hc Ho Hne Hg.
  pose proof (unmapped_not_held _ _ _ _ H Hg) as Hm.
  unfold store in H, Ho, Hg.
  unfold resolve_canonical_id, bind, gets. rewrite H, Hc, Ho.
  destruct oc as [|a s]; [congruence|].
  change (Py.truthy (String a s)) with true. unfold ret. cbn [fst snd].
  now rewrite (append_channel_run _ _ _ _ _ Hg), Hm.
Qed.

Lemma resolve_create channel pid on w oc :
  find_mapped (channel ++ ":" ++ pid) (store w) = None ->
  Py.mem pid (owner_candidates on w) = true ->
  find_owner (store w) = None \/ find_owner (store w) = Some "" ->
  pick_owner_name (user_md w) = Ok oc ->
  resolve_canonical_id channel pid on w
  = (Ok oc,
     snd (_save_identity_map
            (set_identity oc
               (with_channels [channel ++ ":" ++ pid] (stamp_at w 2)
                              (fresh_owner oc w))
               (set_identity oc (fresh_owner oc w) (_load_identity_map w)))
            (ticked 3 w))).
Proof.
  intros H Hc Ho Hp. unfold store in H, Ho.
  unfold resolve_canonical_id, bind, gets. rewrite H, Hc.
  assert (E : (match find_owner (identities (_load_identity_map w)) with
               | Some owner_canonical =>
                 if Py.truthy owner_canonical
                 then ret (owner_canonical, _load_identity_map w)
                 else create_owner (_load_identity_map w)
               | None => create_owner (_load_identity_map w)
               end) w = create_owner (_load_identity_map w) w)
    by (destruct Ho as [-> | ->]; reflexivity).
  rewrite E, create_owner_run, Hp. cbn [fst snd].
  rewrite (append_channel_run oc _ _ _ (fresh_owner oc w))
    by (simpl; apply get_set_same).
  cbn [fresh_owner UserData.channels Py.mem existsb app].
  now rewrite ticked_ticked, stamp_ticked.
Qed.

Lemma resolve_create_fails channel pid on w e :
  find_mapped (channel ++ ":" ++ pid) (store w) = None ->
  Py.mem pid (owner_candidates on w) = true ->
  find_owner (store w) = None \/ find_owner (store w) = Some "" ->
  pick_owner_name (user_md w) = Raise e ->
  resolve_canonical_id channel pid on w = (Raise e, w).
Proof.
  intros H Hc Ho Hp. unfold store in H, Ho.
  unfold resolve_canonical_id, bind, gets. rewrite H, Hc.
  assert (E : (match find_owner (identities (_load_identity_map w)) with
               | Some owner_canonical =>
                 if Py.truthy owner_canonical
                 then ret (owner_canonical, _load_identity_map w)
                 else create_owner (_load_identity_map w)
               | None => create_owner (_load_identity_map w)
               end) w = create_owner (_load_identity_map w) w)
    by (destruct Ho as [-> | ->]; reflexivity).
  now rewrite E, create_owner_run, Hp.
Qed.

(** The channel manager, branch by branch. *)
Lemma add_channel_invalid cid channel pid dn w e :
  _sanitize_canonical_id cid = Raise e ->
  add_channel cid channel pid dn w = (Raise e, w).
Proof.
  intros Hs. unfold add_channel, bind, lift. now rewrite Hs.
Qed.

Lemma add_channel_known cid channel pid dn w k u :
  _sanitize_canonical_id cid = Ok k ->
  Dict.get k (store w) = Some u ->
  add_channel cid channel pid dn w
  = if Py.mem (channel ++ ":" ++ pid) (UserData.channels u) then (Ok tt, w)
    else _save_identity_map
           (set_identity k
              (with_channels
                 (UserData.channels u ++ [(channel ++ ":" ++ pid)%string])%list
                 (stamp_at w 0) u)
              (_load_identity_map w))
           (ticked 1 w).
Proof.
  intros Hs Hg. unfold store in Hg.
  unfold add_channel, bind, lift, gets. rewrite Hs.
  unfold Dict.mem. rewrite Hg. unfold ret. cbn [negb].
  now rewrite (append_channel_run _ _ _ _ _ Hg).
Qed.

Lemma add_channel_new cid channel pid dn w k :
  _sanitize_canonical_id cid = Ok k ->
  Dict.get k (store w) = None ->
  add_channel cid channel pid dn w
  = _save_identity_map
      (set_identity k
         (with_channels [channel ++ ":" ++ pid] (stamp_at w 2)
                        (fresh_user k dn w))
         (set_identity k (fresh_user k dn w) (_load_identity_map w)))
      (ticked 3 w).
Proof.
  intros Hs Hg. unfold store in Hg.
  unfold add_channel, bind, lift, gets. rewrite Hs.
  unfold Dict.mem. rewrite Hg. cbn [negb].
  rewrite !now_run. unfold ret.
  rewrite stamp_ticked.
  rewrite (append_channel_run k _ _ _ (fresh_user k dn w))
    by (simpl; apply get_set_same).
  cbn [fresh_user UserData.channels Py.mem existsb app].
  now rewrite !ticked_ticked, stamp_ticked.
Qed.

Lemma remove_channel_invalid cid channel pid w e :
  _sanitize_canonical_id cid = Raise e ->
  remove_channel cid channel pid w = (Raise e, w).
Proof.
  intros Hs. unfold remove_channel, bind, lift. now rewrite Hs.
Qed.

Lemma remove_channel_unknown cid channel pid w k :
  _sanitize_canonical_id cid = Ok k ->
  Dict.get k (store w) = None ->
  remove_channel cid channel pid w = (Ok tt, w).
Proof.
  intros Hs Hg. unfold store in Hg.
  unfold remove_channel, bind, lift, gets. rewrite Hs.
  unfold Dict.mem. now rewrite Hg.
Qed.

Lemma remove_channel_known cid channel pid w k u :
  _sanitize_canonical_id cid = Ok k ->
  Dict.get k (store w) = Some u ->
  remove_channel cid channel pid w
  = if Py.mem (channel ++ ":" ++ pid) (UserData.channels u)
    then _save_identity_map
           (set_identity k
              (with_channels
                 (Py.remove_first (channel ++ ":" ++ pid) (UserData.channels u))
                 (stamp_at w 0) u)
              (_load_identity_map w))
           (ticked 1 w)
    else (Ok tt, w).
Proof.
  intros Hs Hg. unfold store in Hg.
  unfold remove_channel, bind, lift, gets. rewrite Hs.
  unfold Dict.mem, subscript. rewrite Hg. unfold ret.
  destruct (Py.mem _ (UserData.channels u)); [|reflexivity].
  now rewrite now_run.
Qed.

(* ================================================================= *)
(** * What one call can do to the store *)

Lemma store_fresh w :
  data_file w = None -> memory_file w = None -> store w = [].
Proof.
  intros D Me. unfold store, _load_identity_map, _get_identity_map_path.
  now rewrite D, Me; simpl; rewrite D.
Qed.

Lemma store_edit md w : store (edit_user_md md w) = store w.
Proof. reflexivity. Qed.

(** The resolver leaves the world alone, or appends the channel to the
    owner it found, or stores a new owner holding just that channel. *)
Lemma resolve_store channel pid on w :
  let c := channel ++ ":" ++ pid in
  let w' := snd (resolve_canonical_id channel pid on w) in
  w' = w \/
  (find_mapped c (store w) = None /\
   ((exists oc u,
       find_owner (store w) = Some oc /\ oc <> "" /\
       Dict.get oc (store w) = Some u /\
       store w'
       = Dict.sort_keys
           (Dict.set oc
              (with_channels (UserData.channels u ++ [c])%list
                             (stamp_at w 0) u)
              (store w)))
    \/
    (exists oc,
       (find_owner (store w) = None \/ find_owner (store w) = Some "") /\
       pick_owner_name (user_md w) = Ok oc /\
       store w'
       = Dict.sort_keys
           (Dict.set oc
              (with_channels [c] (stamp_at w 2) (fresh_owner oc w))
              (Dict.set oc (fresh_owner oc w) (store w)))))).
Proof.
  intros c w'. subst w'.
  destruct (find_mapped c (store w)) as [k|] eqn:Hf.
  { left. subst c. now rewrite (resolve_mapped _ _ _ _ _ Hf). }
  destruct (Py.mem pid (owner_candidates on w)) eqn:Hc.
  2:{ left. subst c. now rewrite (resolve_stranger _ _ _ _ Hf Hc). }
  assert (Hcase : (exists oc, find_owner (store w) = Some oc /\ oc <> "")
                  \/ (find_owner (store w) = None
                      \/ find_owner (store w) = Some "")).
  { destruct (find_owner (store w)) as [[|a s]|]; eauto.
    left. exists (String a s). split; [reflexivity|discriminate]. }
  destruct Hcase as [[oc [Ho Hne]]|Ho].
  - destruct (find_owner_key _ _ Ho) as [u Hg].
    right. split; [reflexivity|]. left. exists oc, u.
    repeat split; auto. subst c.
    rewrite (resolve_reuse _ _ _ _ _ _ Hf Hc Ho Hne Hg). cbn [snd].
    now rewrite store_save.
  - destruct (pick_owner_name (user_md w)) as [oc|e] eqn:Hp.
    + right. split; [reflexivity|]. right. exists oc.
      repeat split; auto. subst c.
      rewrite (resolve_create _ _ _ _ _ Hf Hc Ho Hp). cbn [snd].
      now rewrite store_save.
    + left. subst c. now rewrite (resolve_create_fails _ _ _ _ _ Hf Hc Ho Hp).
Qed.

(** [add_channel] leaves the world alone, or appends to the entry it found,
    or stores a new entry holding just that channel. *)
Lemma add_channel_store cid channel pid dn w :
  let c := channel ++ ":" ++ pid in
  let w' := snd (add_channel cid channel pid dn w) in
  w' = w \/
  exists k,
    _sanitize_canonical_id cid = Ok k /\
    ((exists u,
        Dict.get k (store w) = Some u /\
        Py.mem c (UserData.channels u) = false /\
        store w'
        = Dict.sort_keys
            (Dict.set k
               (with_channels (UserData.channels u ++ [c])%list
                              (stamp_at w 0) u)
               (store w)))
     \/
     (Dict.get k (store w) = None /\
      store w'
      = Dict.sort_keys
          (Dict.set k
             (with_channels [c] (stamp_at w 2) (fresh_user k dn w))
             (Dict.set k (fresh_user k dn w) (store w))))).
Proof.
  intros c w'. subst w'.
  destruct (_sanitize_canonical_id cid) as [k|e] eqn:Hs.
  2:{ left. now rewrite (add_channel_invalid _ _ _ _ _ _ Hs). }
  destruct (Dict.get k (store w)) as [u|] eqn:Hg.
  - rewrite (add_channel_known _ _ _ _ _ _ _ Hs Hg). fold c.
    destruct (Py.mem c (UserData.channels u)) eqn:Hm; [now left|].
    right. exists k. split; [reflexivity|]. left. exists u.
    repeat split; auto. now rewrite store_save.
  - rewrite (add_channel_new _ _ _ _ _ _ Hs Hg).
    right. exists k. split; [reflexivity|]. right.
    split; [exact Hg|]. now rewrite store_save.
Qed.

(** [remove_channel] leaves the world alone, or takes the channel off the
    entry it found. *)
Lemma remove_channel_store cid channel pid w :
  let c := channel ++ ":" ++ pid in
  let w' := snd (remove_channel cid channel pid w) in
  w' = w \/
  exists k u,
    _sanitize_canonical_id cid = Ok k /\
    Dict.get k (store w) = Some u /\
    Py.mem c (UserData.channels u) = true /\
    store w'
    = Dict.sort_keys
        (Dict.set k
           (with_channels (Py.remove_first c (UserData.channels u))
                          (stamp_at w 0) u)
           (store w)).
Proof.
  intros c w'. subst w'.
  destruct (_sanitize_canonical_id cid) as [k|e] eqn:Hs.
  2:{ left. now rewrite (remove_channel_invalid _ _ _ _ _ Hs). }
  destruct (Dict.get k (store w)) as [u|] eqn:Hg.
  2:{ left. now rewrite (remove_channel_unknown _ _ _ _ _ Hs Hg). }
  rewrite (remove_channel_known _ _ _ _ _ _ Hs Hg). fold c.
  destruct (Py.mem c (UserData.channels u)) eqn:Hm; [|now left].
  right. exists k, u. repeat split; auto. now rewrite store_save.
Qed.

(* ================================================================= *)
(** * Invariants one call keeps *)

Lemma normalize_ok x k : _sanitize_canonical_id x = Ok k -> k = normalize x.
Proof.
  unfold _sanitize_canonical_id.
  destruct (negb (Py.truthy (normalize x)) || Py.startswith "." (normalize x)
            || Py.contains "/" (normalize x))%bool; congruence.
Qed.

Lemma sanitize_nonempty x k : _sanitize_canonical_id x = Ok k -> k <> "".
Proof.
  unfold _sanitize_canonical_id.
  destruct (normalize x) as [|a s]; simpl; [discriminate|].
  destruct (_ || _)%bool; [discriminate|]. intros [= <-]. discriminate.
Qed.

Lemma pick_owner_nonempty md oc : pick_owner_name md = Ok oc -> oc <> "".
Proof.
  unfold pick_owner_name.
  destruct md as [doc|]; [|intros [= <-]; discriminate].
  destruct (name_words doc) as [[|first rest]|]; try discriminate.
  - apply sanitize_nonempty.
  - intros [= <-]. discriminate.
Qed.

(** A new entry that holds just [c], stored where nobody held [c]. *)
Lemma unique_register ids k u u' c :
  channel_unique ids -> Dict.count (holds c) ids = 0 ->
  UserData.channels u = [] -> UserData.channels u' = [c] ->
  channel_unique (Dict.set k u' (Dict.set k u ids)).
Proof.
  intros Hu Hz Hc Hc'.
  eapply unique_append with (u := u) (c := c).
  - now apply unique_create.
  - apply get_set_same.
  - now apply holders_create.
  - now rewrite Hc.
Qed.

Lemma resolve_unique channel pid on w :
  channel_unique (store w) ->
  channel_unique (store (snd (resolve_canonical_id channel pid on w))).
Proof.
  intros Hu.
  destruct (resolve_store channel pid on w)
    as [->|[Hf [[oc [u [_ [_ [Hg ->]]]]]|[oc [_ [_ ->]]]]]]; [exact Hu|..];
    apply find_mapped_none in Hf; apply unique_sort.
  - now apply unique_append with (u := u) (c := (channel ++ ":" ++ pid)%string).
  - now apply unique_register with (c := (channel ++ ":" ++ pid)%string).
Qed.

(** Under the guard, nobody holds the channel [add_channel] is about to
    append. *)
Lemma guard_unheld cid channel pid ids k :
  NoDup (Dict.keys ids) ->
  add_guard cid channel pid ids ->
  _sanitize_canonical_id cid = Ok k ->
  match Dict.get k ids with
  | Some u => Py.mem (channel ++ ":" ++ pid) (UserData.channels u) = false
  | None => True
  end ->
  Dict.count (holds (channel ++ ":" ++ pid)) ids = 0.
Proof.
  intros Hnd Hguard Hs Hk. apply count_zero. intros [k' u'] Hin.
  unfold holds. simpl. apply mem_false. intros Hc.
  pose proof (Hguard _ _ Hin Hc) as E. rewrite Hs in E. injection E as <-.
  rewrite (in_get _ _ _ Hnd Hin) in Hk.
  apply mem_false in Hk. contradiction.
Qed.

Lemma add_channel_unique cid channel pid dn w :
  NoDup (Dict.keys (store w)) ->
  add_guard cid channel pid (store w) ->
  channel_unique (store w) ->
  channel_unique (store (snd (add_channel cid channel pid dn w))).
Proof.
  intros Hnd Hguard Hu.
  destruct (add_channel_store cid channel pid dn w)
    as [->|[k [Hs [[u [Hg [Hm ->]]]|[Hg ->]]]]]; [exact Hu|..];
    apply unique_sort;
    assert (Hz : Dict.count (holds (channel ++ ":" ++ pid)) (store w) = 0)
      by (apply (guard_unheld cid _ _ _ k); auto; now rewrite Hg).
  - now apply unique_append with (u := u) (c := (channel ++ ":" ++ pid)%string).
  - now apply unique_register with (c := (channel ++ ":" ++ pid)%string).
Qed.

Lemma remove_channel_unique cid channel pid w :
  channel_unique (store w) ->
  channel_unique (store (snd (remove_channel cid channel pid w))).
Proof.
  intros Hu.
  destruct (remove_channel_store cid channel pid w)
    as [->|[k [u [_ [Hg [_ ->]]]]]]; [exact Hu|].
  apply unique_sort.
  now apply unique_remove with (u := u) (c := (channel ++ ":" ++ pid)%string).
Qed.

Lemma resolve_NoDup channel pid on w :
  NoDup (Dict.keys (store w)) ->
  NoDup (Dict.keys (store (snd (resolve_canonical_id channel pid on w)))).
Proof.
  intros Hnd.
  destruct (resolve_store channel pid on w)
    as [->|[_ [[oc [u [_ [_ [_ ->]]]]]|[oc [_ [_ ->]]]]]]; [exact Hnd|..];
    apply NoDup_keys_sort; repeat apply NoDup_keys_set; exact Hnd.
Qed.

Lemma add_channel_NoDup cid channel pid dn w :
  NoDup (Dict.keys (store w)) ->
  NoDup (Dict.keys (store (snd (add_channel cid channel pid dn w)))).
Proof.
  intros Hnd.
  destruct (add_channel_store cid channel pid dn w)
    as [->|[k [_ [[u [_ [_ ->]]]|[_ ->]]]]]; [exact Hnd|..];
    apply NoDup_keys_sort; repeat apply NoDup_keys_set; exact Hnd.
Qed.

Lemma remove_channel_NoDup cid channel pid w :
  NoDup (Dict.keys (store w)) ->
  NoDup (Dict.keys (store (snd (remove_channel cid channel pid w)))).
Proof.
  intros Hnd.
  destruct (remove_channel_store cid channel pid w)
    as [->|[k [u [_ [_ [_ ->]]]]]]; [exact Hnd|].
  apply NoDup_keys_sort. apply NoDup_keys_set. exact Hnd.
Qed.

Lemma no_nameless_owner ids :
  keys_nonempty ids -> find_owner ids <> Some "".
Proof.
  intros Hk Ho. destruct (find_owner_some _ _ Ho) as [u [Hin _]].
  apply (Hk ""); [|reflexivity].
  apply (in_map fst) in Hin. exact Hin.
Qed.

Lemma resolve_owners channel pid on w :
  keys_nonempty (store w) ->
  at_most_one_owner (store w) ->
  at_most_one_owner (store (snd (resolve_canonical_id channel pid on w))).
Proof.
  unfold at_most_one_owner. intros Hk Hu.
  destruct (resolve_store channel pid on w)
    as [->|[_ [[oc [u [_ [_ [Hg ->]]]]]|[oc [[Ho|Ho] [_ ->]]]]]];
    [exact Hu| | |now apply no_nameless_owner in Ho];
    rewrite count_sort_keys.
  - now rewrite (owners_same _ _ u).
  - apply find_owner_none in Ho.
    rewrite (owners_same _ _ (fresh_owner oc w));
      [now apply owners_create_first | apply get_set_same | reflexivity].
Qed.

Lemma add_channel_owners cid channel pid dn w :
  at_most_one_owner (store w) ->
  at_most_one_owner (store (snd (add_channel cid channel pid dn w))).
Proof.
  unfold at_most_one_owner. intros Hu.
  destruct (add_channel_store cid channel pid dn w)
    as [->|[k [_ [[u [Hg [_ ->]]]|[_ ->]]]]]; [exact Hu|..];
    rewrite count_sort_keys.
  - now rewrite (owners_same _ _ u).
  - rewrite (owners_same _ _ (fresh_user k dn w));
      [|apply get_set_same|reflexivity].
    pose proof (owners_create_plain (store w) k (fresh_user k dn w) eq_refl).
    lia.
Qed.

Lemma remove_channel_owners cid channel pid w :
  at_most_one_owner (store w) ->
  at_most_one_owner (store (snd (remove_channel cid channel pid w))).
Proof.
  unfold at_most_one_owner. intros Hu.
  destruct (remove_channel_store cid channel pid w)
    as [->|[k [u [_ [Hg [_ ->]]]]]]; [exact Hu|].
  rewrite count_sort_keys. now rewrite (owners_same _ _ u).
Qed.

Lemma keys_nonempty_set k (u : UserData.t) ids :
  k <> "" -> keys_nonempty ids -> keys_nonempty (Dict.set k u ids).
Proof.
  intros Hne Hk k' Hin. apply in_keys_set in Hin.
  destruct Hin as [->|Hin]; auto.
Qed.

Lemma keys_nonempty_sort ids :
  keys_nonempty ids -> keys_nonempty (Dict.sort_keys ids).
Proof.
  intros Hk k Hin. apply Hk.
  unfold Dict.keys in *. apply in_map_iff in Hin.
  destruct Hin as [e [<- Hin]]. apply in_map. now apply in_sort_keys.
Qed.

Lemma resolve_keys_nonempty channel pid on w :
  keys_nonempty (store w) ->
  keys_nonempty (store (snd (resolve_canonical_id channel pid on w))).
Proof.
  intros Hk.
  destruct (resolve_store channel pid on w)
    as [->|[_ [[oc [u [_ [Hne [_ ->]]]]]|[oc [_ [Hp ->]]]]]]; [exact Hk|..];
    apply keys_nonempty_sort.
  - now apply keys_nonempty_set.
  - apply pick_owner_nonempty in Hp. now repeat apply keys_nonempty_set.
Qed.

Lemma add_channel_keys_nonempty cid channel pid dn w :
  keys_nonempty (store w) ->
  keys_nonempty (store (snd (add_channel cid channel pid dn w))).
Proof.
  intros Hk.
  destruct (add_channel_store cid channel pid dn w)
    as [->|[k [Hs [[u [_ [_ ->]]]|[_ ->]]]]]; [exact Hk|..];
    apply sanitize_nonempty in Hs; apply keys_nonempty_sort;
    now repeat apply keys_nonempty_set.
Qed.

Lemma remove_channel_keys_nonempty cid channel pid w :
  keys_nonempty (store w) ->
  keys_nonempty (store (snd (remove_channel cid channel pid w))).
Proof.
  intros Hk.
  destruct (remove_channel_store cid channel pid w)
    as [->|[k [u [Hs [_ [_ ->]]]]]]; [exact Hk|].
  apply sanitize_nonempty in Hs. apply keys_nonempty_sort.
  now apply keys_nonempty_set.
Qed.

(* ================================================================= *)
(** * Global channel uniqueness *)

Lemma guarded_invariant w :
  reachable_guarded w ->
  NoDup (Dict.keys (store w)) /\ channel_unique (store w).
Proof.
  induction 1 as [w D Me
                 | md w _ IH
                 | channel pid on w _ [Hnd Hu]
                 | cid channel pid dn w _ [Hnd Hu] Hguard
                 | cid channel pid w _ [Hnd Hu]].
  - rewrite (store_fresh _ D Me).
    split; [apply NoDup_nil | intros c; unfold Dict.count; simpl; lia].
  - exact IH.
  - split; [now apply resolve_NoDup | now apply resolve_unique].
  - split; [now apply add_channel_NoDup | now apply add_channel_unique].
  - split; [now apply remove_channel_NoDup | now apply remove_channel_unique].
Qed.

(** C1, as stated, fails: [add_channel "alice" "tg" "1"] followed by
    [add_channel "bob" "tg" "1"] on an empty workspace leaves the channel
    string "tg:1" in the channels of both entries, since [add_channel]
    looks at the target entry only. *)
Lemma channel_uniqueness_broken :
  ~ (forall w, reachable w -> channel_unique (store w)).
Proof.
  intros H.
  assert (R : reachable two_claimants).
  { unfold two_claimants. do 2 apply reach_add. now apply reach_fresh. }
  specialize (H _ R "tg:1"). vm_compute in H. lia.
Qed.

(** C1, amended: in every store reached from a workspace without a map by
    calls of [resolve_canonical_id], [add_channel] and [remove_channel]
    (and edits of USER.md in between), every channel string is held by at
    most one entry, provided each [add_channel] call is made for a channel
    string that no entry other than its target holds. *)
Theorem channel_uniqueness_guarded w :
  reachable_guarded w -> channel_unique (store w).
Proof. intros R. exact (proj2 (guarded_invariant w R)). Qed.

Lemma channel_uniqueness_guarded_witness :
  channel_unique
    (store (snd (add_channel "Alice" "tg" "1" None
                   (snd (add_channel "alice" "tg" "1" None
                           (fresh None frozen_clock)))))).
Proof.
  apply channel_uniqueness_guarded.
  apply guarded_add; [apply guarded_add|].
  - apply guarded_fresh; reflexivity.
  - intros k u Hin. vm_compute in Hin. contradiction.
  - intros k u Hin Hc. vm_compute in Hin.
    destruct Hin as [E|[]]. injection E as <- <-. reflexivity.
Defined.

(* ================================================================= *)
(** * The sanitizer applied twice *)

(** C2: on the 65-character id made of 63 letters "a" followed by "-b" the
    sanitizer succeeds and returns the first 64 characters, which end in a
    hyphen because the cut comes after the strip; applied to that result it
    succeeds again and returns the 63 letters, a different string. *)
Theorem sanitize_twice_differs :
  _sanitize_canonical_id long_id = Ok (repeated "a" 63 ++ "-") /\
  _sanitize_canonical_id (repeated "a" 63 ++ "-") = Ok (repeated "a" 63) /\
  repeated "a" 63 ++ "-" <> repeated "a" 63.
Proof.
  split; [|split]; [vm_compute; reflexivity..|].
  intros E. apply (f_equal String.length) in E. vm_compute in E. discriminate.
Qed.

(* ================================================================= *)
(** * Registering the owner *)

Lemma resolve_registers channel pid on w oc :
  find_mapped (channel ++ ":" ++ pid) (store w) = None ->
  Py.mem pid (owner_candidates on w) = true ->
  find_owner (store w) = None \/ find_owner (store w) = Some "" ->
  pick_owner_name (user_md w) = Ok oc ->
  owner_registered oc (channel ++ ":" ++ pid) w
                   (resolve_canonical_id channel pid on w).
Proof.
  intros Hf Hc Ho Hp. rewrite (resolve_create _ _ _ _ _ Hf Hc Ho Hp).
  unfold owner_registered. cbn [fst snd]. rewrite store_save, saves_save.
  cbn [set_identity identities].
  repeat split.
  - now rewrite get_sort_keys, get_set_same.
  - intros k Hk. rewrite get_sort_keys, !get_set_other by exact Hk.
    reflexivity.
Qed.

(** C3: with the profile line "**Name:** ..." no entry is flagged owner
    and the contact is an owner candidate, yet the resolver does not fall
    back to "owner": the sanitizer rejects the name, the call of line 210
    stands outside any handler, and the resolver raises the ValueError,
    leaving the workspace without owner. *)
Theorem owner_name_rejected_raises :
  let w := fresh (Some dotted_profile) frozen_clock in
  find_mapped "telegram:1234567" (store w) = None /\
  Py.mem "1234567" (owner_candidates None w) = true /\
  find_owner (store w) = None /\
  option_map name_words (user_md w) = Some (Some ["..."]) /\
  _sanitize_canonical_id "..."
  = Raise (ValueError "Invalid canonical_id: ...") /\
  resolve_canonical_id "telegram" "1234567" None w
  = (Raise (ValueError "Invalid canonical_id: ..."), w).
Proof. repeat split. Qed.

(** X28: when the channel string is unmapped, the provider id is an owner
    candidate and no entry is flagged owner, the resolver registers a new
    owner entry (flag set, capitalized id as display name, holding just
    this channel string, saved once) under "owner" if there is no USER.md
    or no name in it, and under the sanitized first word of the name if
    the sanitizer accepts that word; it returns the id it registered. *)
Theorem owner_id_from_profile channel pid on w :
  find_mapped (channel ++ ":" ++ pid) (store w) = None ->
  Py.mem pid (owner_candidates on w) = true ->
  find_owner (store w) = None ->
  let out := resolve_canonical_id channel pid on w in
  (option_map name_words (user_md w) = None \/
   option_map name_words (user_md w) = Some None ->
   owner_registered "owner" (channel ++ ":" ++ pid) w out) /\
  (forall first rest oc,
     option_map name_words (user_md w) = Some (Some (first :: rest)) ->
     _sanitize_canonical_id first = Ok oc ->
     owner_registered oc (channel ++ ":" ++ pid) w out).
Proof.
  intros Hf Hc Ho out. subst out. split.
  - intros Hn. apply resolve_registers; auto.
    unfold pick_owner_name.
    destruct (user_md w) as [doc|]; [|reflexivity]. simpl in Hn.
    destruct Hn as [Hn|Hn]; [discriminate|]. injection Hn as ->.
    reflexivity.
  - intros first rest oc Hn Hs. apply resolve_registers; auto.
    unfold pick_owner_name.
    destruct (user_md w) as [doc|]; [|discriminate]. simpl in Hn.
    injection Hn as ->. exact Hs.
Qed.

Lemma owner_id_from_profile_witness :
  owner_registered "test" "telegram:1234567"
    (fresh (Some named_profile) frozen_clock)
    (resolve_canonical_id "telegram" "1234567" None
       (fresh (Some named_profile) frozen_clock)).
Proof.
  refine (proj2 (owner_id_from_profile "telegram" "1234567" None
                   (fresh (Some named_profile) frozen_clock)
                   _ _ _)
                "Test" ["User"] "test" _ _); reflexivity.
Defined.

(* ================================================================= *)
(** * At most one owner *)


(** X29: for every store with non-empty keys and at most one entry flagged
    owner, each of [resolve_canonical_id], [add_channel] and
    [remove_channel] leaves a store with at most one entry flagged owner;
    a resolver call that finds an owner entry returns its key and adds no
    entry; an entry [add_channel] creates is not flagged owner. *)
Theorem owner_uniqueness_kept w :
  keys_nonempty (store w) ->
  at_most_one_owner (store w) ->
  (forall channel pid on,
     at_most_one_owner
       (store (snd (resolve_canonical_id channel pid on w)))) /\
  (forall cid channel pid dn,
     at_most_one_owner (store (snd (add_channel cid channel pid dn w)))) /\
  (forall cid channel pid,
     at_most_one_owner (store (snd (remove_channel cid channel pid w)))) /\
  (forall channel pid on oc,
     find_mapped (channel ++ ":" ++ pid) (store w) = None ->
     Py.mem pid (owner_candidates on w) = true ->
     find_owner (store w) = Some oc ->
     fst (resolve_canonical_id channel pid on w) = Ok oc /\
     List.length (store (snd (resolve_canonical_id channel pid on w)))
     = List.length (store w)) /\
  (forall cid channel pid dn k,
     _sanitize_canonical_id cid = Ok k ->
     Dict.get k (store w) = None ->
     exists u,
       Dict.get k (store (snd (add_channel cid channel pid dn w))) = Some u /\
       UserData.is_owner u = false).
Proof.
  intros Hk Hu. repeat apply conj.
  - intros. now apply resolve_owners.
  - intros. now apply add_channel_owners.
  - intros. now apply remove_channel_owners.
  - intros channel pid on oc Hf Hc Ho.
    assert (Hne : oc <> "").
    { intros ->. now apply (no_nameless_owner _ Hk). }
    destruct (find_owner_key _ _ Ho) as [u Hg].
    rewrite (resolve_reuse _ _ _ _ _ _ Hf Hc Ho Hne Hg). cbn [fst snd].
    split; [reflexivity|].
    rewrite store_save, length_sort_keys. cbn [set_identity identities].
    rewrite length_set. unfold Dict.mem. fold (store w). now rewrite Hg.
  - intros cid channel pid dn k Hs Hg.
    rewrite (add_channel_new _ _ _ _ _ _ Hs Hg), store_save.
    cbn [set_identity identities].
    rewrite get_sort_keys, get_set_same. eauto.
Qed.

Lemma owner_uniqueness_kept_witness :
  fst (resolve_canonical_id "whatsapp" "+1234567890"
         (Some ["+1234567890"]) owned) = Ok "test" /\
  List.length
    (store (snd (resolve_canonical_id "whatsapp" "+1234567890"
                   (Some ["+1234567890"]) owned)))
  = List.length (store owned).
Proof.
  refine (proj1 (proj2 (proj2 (proj2 (owner_uniqueness_kept owned _ _))))
                "whatsapp" "+1234567890" (Some ["+1234567890"]) "test"
                _ _ _); try reflexivity.
  - intros k Hin. vm_compute in Hin. destruct Hin as [<-|[]]. discriminate.
  - vm_compute. lia.
Defined.

(* ================================================================= *)
(** * The resolver's read-only paths *)

(** C5: when no entry holds the channel string and the provider id is not
    among the owner candidates, the resolver returns
    "stranger:<channel>:<provider_user_id>" and the workspace it leaves is
    the one it found: no entry created, no save, no clock reading. *)
Theorem stranger_not_persisted channel pid on w :
  (forall k u, In (k, u) (store w) ->
               ~ In (channel ++ ":" ++ pid) (UserData.channels u)) ->
  ~ In pid (owner_candidates on w) ->
  resolve_canonical_id channel pid on w
  = (Ok ("stranger:" ++ channel ++ ":" ++ pid), w).
Proof.
  intros Hm Hc. apply resolve_stranger.
  - apply find_mapped_none, count_zero. intros [k u] Hin.
    unfold holds. simpl. apply mem_false. now apply (Hm k).
  - now apply mem_false.
Qed.

Lemma stranger_not_persisted_witness :
  resolve_canonical_id "discord" "unknown#1234" (Some []) owned
  = (Ok "stranger:discord:unknown#1234", owned).
Proof.
  apply (stranger_not_persisted "discord" "unknown#1234" (Some []) owned).
  - intros k u Hin. vm_compute in Hin. destruct Hin as [E|[]].
    injection E as <- <-. simpl. intros [E|[]]. discriminate.
  - simpl. tauto.
Defined.

(** C6: when some entry holds the channel string, the resolver returns the
    key of an entry holding it and leaves the workspace exactly as it found
    it; in a store where each channel string has one holder at most, that
    key is the key of the one entry holding it. *)
Theorem lookup_is_pure channel pid on w k u :
  In (k, u) (store w) ->
  In (channel ++ ":" ++ pid) (UserData.channels u) ->
  (exists k' u',
     In (k', u') (store w) /\
     In (channel ++ ":" ++ pid) (UserData.channels u') /\
     resolve_canonical_id channel pid on w = (Ok k', w)) /\
  (channel_unique (store w) ->
   resolve_canonical_id channel pid on w = (Ok k, w)).
Proof.
  intros Hin Hc.
  destruct (find_mapped (channel ++ ":" ++ pid) (store w)) as [k'|] eqn:Hf.
  2:{ apply find_mapped_none in Hf. rewrite count_zero in Hf.
      specialize (Hf _ Hin). unfold holds in Hf. simpl in Hf.
      apply mem_false in Hf. contradiction. }
  destruct (find_mapped_some _ _ _ Hf) as [u' [Hin' Hc']].
  pose proof (resolve_mapped _ _ on _ _ Hf) as Hr.
  split; [exists k', u'; auto|].
  intros Hu.
  assert (E : (k, u) = (k', u')).
  { apply (count_le_one_unique (holds (channel ++ ":" ++ pid)) (store w));
      auto; unfold holds; simpl; now apply mem_In. }
  injection E as -> ->. exact Hr.
Qed.

Lemma lookup_is_pure_witness :
  resolve_canonical_id "telegram" "1234567" None owned = (Ok "test", owned).
Proof.
  refine (proj2 (lookup_is_pure "telegram" "1234567" None owned "test"
                   (UserData.mk "test" true "Test" ["telegram:1234567"]
                                "2026-01-01T00:00:00+00:00Z"
                                "2026-01-01T00:00:00+00:00Z") _ _) _).
  - left. reflexivity.
  - left. reflexivity.
  - intros c. unfold Dict.count.
    apply Nat.le_trans with (List.length (store owned));
      [apply filter_length_le | vm_compute; lia].
Defined.

(* ================================================================= *)
(** * Queries *)

Lemma get_channels_run cid w k :
  _sanitize_canonical_id cid = Ok k ->
  get_channels cid w = (Ok (channels_of k (store w)), w).
Proof.
  intros Hs. unfold get_channels, bind, lift, gets, channels_of, store.
  rewrite Hs. now destruct (Dict.get k _).
Qed.

Lemma is_owner_run cid w k :
  _sanitize_canonical_id cid = Ok k ->
  is_owner cid w
  = (Ok (match Dict.get k (store w) with
         | Some u => UserData.is_owner u
         | None => false
         end), w).
Proof.
  intros Hs. unfold is_owner, bind, lift, gets, store.
  rewrite Hs. now destruct (Dict.get k _).
Qed.

Lemma query_invalid cid w e :
  _sanitize_canonical_id cid = Raise e ->
  get_channels cid w = (Raise e, w) /\ is_owner cid w = (Raise e, w).
Proof.
  intros Hs. unfold get_channels, is_owner, bind, lift. now rewrite Hs.
Qed.



(** C10: when the sanitizer's normal form of an id is empty, [get_channels],
    [is_owner] and [remove_channel] raise ValueError("Invalid
    canonical_id: <id>") whatever the workspace holds, and leave it as it
    was. *)
Theorem empty_id_rejected cid channel pid w :
  normalize cid = "" ->
  get_channels cid w
  = (Raise (ValueError ("Invalid canonical_id: " ++ cid)), w) /\
  is_owner cid w
  = (Raise (ValueError ("Invalid canonical_id: " ++ cid)), w) /\
  remove_channel cid channel pid w
  = (Raise (ValueError ("Invalid canonical_id: " ++ cid)), w).
Proof.
  intros Hn.
  assert (Hs : _sanitize_canonical_id cid
               = Raise (ValueError ("Invalid canonical_id: " ++ cid)))
    by (unfold _sanitize_canonical_id; now rewrite Hn).
  destruct (query_invalid _ w _ Hs) as [G O].
  repeat apply conj; auto.
  now apply remove_channel_invalid.
Qed.

Lemma empty_id_rejected_witness :
  get_channels "..." owned
  = (Raise (ValueError "Invalid canonical_id: ..."), owned) /\
  is_owner "..." owned
  = (Raise (ValueError "Invalid canonical_id: ..."), owned) /\
  remove_channel "..." "telegram" "1234567" owned
  = (Raise (ValueError "Invalid canonical_id: ..."), owned).
Proof.
  apply (empty_id_rejected "..." "telegram" "1234567" owned). reflexivity.
Defined.

(* ================================================================= *)
(** * Adding a channel twice *)

(** C8: for an id the sanitizer accepts and an entry that does not hold the
    channel string more than once to begin with, [add_channel] returns
    normally, a second call with the same arguments returns normally and
    leaves the workspace of the first call untouched (same entries, same
    [updated_at], no save, no clock reading), and [get_channels] then
    lists the channel string exactly once. *)
Theorem add_channel_idempotent cid channel pid dn w k :
  _sanitize_canonical_id cid = Ok k ->
  count_occ string_dec (channels_of k (store w)) (channel ++ ":" ++ pid) <= 1 ->
  let w1 := snd (add_channel cid channel pid dn w) in
  fst (add_channel cid channel pid dn w) = Ok tt /\
  add_channel cid channel pid dn w1 = (Ok tt, w1) /\
  exists cs,
    get_channels cid w1 = (Ok cs, w1) /\
    count_occ string_dec cs (channel ++ ":" ++ pid) = 1.
Proof.
  intros Hs Hocc w1. subst w1. unfold channels_of in Hocc.
  set (c := channel ++ ":" ++ pid) in *.
  assert (Hafter : forall u0 u1 m w0,
            UserData.channels u1 = (UserData.channels u0 ++ [c])%list ->
            count_occ string_dec (UserData.channels u0) c = 0 ->
            let w1 := snd (_save_identity_map (set_identity k u1 m) w0) in
            add_channel cid channel pid dn w1 = (Ok tt, w1) /\
            exists cs,
              get_channels cid w1 = (Ok cs, w1) /\
              count_occ string_dec cs c = 1).
  { intros u0 u1 m w0 Hc Hz w1.
    assert (Hg1 : Dict.get k (store w1) = Some u1).
    { subst w1. rewrite store_save. cbn [set_identity identities].
      now rewrite get_sort_keys, get_set_same. }
    split.
    - rewrite (add_channel_known _ _ _ _ _ _ _ Hs Hg1). fold c.
      rewrite Hc, mem_app. simpl. now rewrite String.eqb_refl, orb_true_r.
    - exists (UserData.channels u1).
      rewrite (get_channels_run _ _ _ Hs). unfold channels_of.
      rewrite Hg1. split; [reflexivity|].
      rewrite Hc, count_occ_app, Hz. simpl.
      now destruct (string_dec c c). }
  destruct (Dict.get k (store w)) as [u|] eqn:Hg.
  - rewrite (add_channel_known _ _ _ _ _ _ _ Hs Hg). fold c.
    destruct (Py.mem c (UserData.channels u)) eqn:Hm.
    + cbn [fst snd]. split; [reflexivity|]. split.
      * rewrite (add_channel_known _ _ _ _ _ _ _ Hs Hg). fold c.
        now rewrite Hm.
      * exists (UserData.channels u).
        rewrite (get_channels_run _ _ _ Hs). unfold channels_of.
        rewrite Hg. split; [reflexivity|].
        apply mem_In in Hm.
        apply (count_occ_In string_dec) in Hm. lia.
    + split; [reflexivity|].
      apply Hafter with (u0 := u); [reflexivity|].
      apply count_occ_not_In. now apply mem_false.
  - rewrite (add_channel_new _ _ _ _ _ _ Hs Hg). fold c.
    split; [reflexivity|].
    exact (Hafter (fresh_user k dn w)
                  (with_channels [c] (stamp_at w 2) (fresh_user k dn w))
                  (set_identity k (fresh_user k dn w) (_load_identity_map w))
                  (ticked 3 w) eq_refl eq_refl).
Qed.

Lemma add_channel_idempotent_witness :
  let w1 := snd (add_channel "alice" "discord" "alice#1234" None
                             (fresh None frozen_clock)) in
  fst (add_channel "alice" "discord" "alice#1234" None
                   (fresh None frozen_clock)) = Ok tt /\
  add_channel "alice" "discord" "alice#1234" None w1 = (Ok tt, w1) /\
  exists cs,
    get_channels "alice" w1 = (Ok cs, w1) /\
    count_occ string_dec cs "discord:alice#1234" = 1.
Proof.
  apply (add_channel_idempotent "alice" "discord" "alice#1234" None
                                (fresh None frozen_clock) "alice").
  - reflexivity.
  - simpl. lia.
Defined.

(* ================================================================= *)
(** * Registering the owner over an existing entry *)

(** C9: when no entry is flagged owner and the id the resolver picks for
    the owner it registers is already the key of an entry, the entry under
    that key afterwards is the new owner entry, with the flag set, the
    capitalized id as display name, the one channel string just resolved
    and fresh timestamps, whatever the old entry held; no entry is added
    and the other keys map to what they did. *)
Theorem owner_registration_overwrites channel pid on w oc old :
  find_mapped (channel ++ ":" ++ pid) (store w) = None ->
  Py.mem pid (owner_candidates on w) = true ->
  find_owner (store w) = None ->
  pick_owner_name (user_md w) = Ok oc ->
  Dict.get oc (store w) = Some old ->
  owner_registered oc (channel ++ ":" ++ pid) w
                   (resolve_canonical_id channel pid on w) /\
  List.length (store (snd (resolve_canonical_id channel pid on w)))
  = List.length (store w).
Proof.
  intros Hf Hc Ho Hp Hg. split.
  - apply resolve_registers; auto.
  - rewrite (resolve_create _ _ _ _ _ Hf Hc (or_introl Ho) Hp). cbn [snd].
    rewrite store_save, length_sort_keys. cbn [set_identity identities].
    rewrite !length_set. unfold Dict.mem. rewrite get_set_same.
    fold (store w). now rewrite Hg.
Qed.

Lemma owner_registration_overwrites_witness :
  owner_registered "owner" "whatsapp:7" squatted
    (resolve_canonical_id "whatsapp" "7" (Some ["7"]) squatted) /\
  List.length
    (store (snd (resolve_canonical_id "whatsapp" "7" (Some ["7"]) squatted)))
  = List.length (store squatted).
Proof.
  apply (owner_registration_overwrites "whatsapp" "7" (Some ["7"]) squatted
           "owner"
           (UserData.mk "owner" false "Owner" ["tg:5"]
                        "2026-01-01T00:00:00+00:00Z"
                        "2026-01-01T00:00:00+00:00Z"));
    reflexivity.
Defined.

(* ================================================================= *)
(** * Facts about the string operations *)

Lemma allowed_plain c :
  allowed c = true ->
  Py.byte_is 196 c = false /\ Py.byte_is 226 c = false /\
  Py.lower_ascii c = c /\
  Ascii.eqb "/" c = false /\ Ascii.eqb "." c = false /\
  Ascii.eqb ":" c = false.
Proof.
  destruct c as [[] [] [] [] [] [] [] []]; vm_compute; intros H;
    try discriminate H; repeat split.
Qed.

Lemma all_chars_keep p s : all_chars p (Py.keep p s) = true.
Proof.
  induction s as [|c t IH]; simpl; [reflexivity|].
  destruct (p c) eqn:E; simpl; [now rewrite E|exact IH].
Qed.

Lemma all_chars_lstrip q p s :
  all_chars q s = true -> all_chars q (Py.lstrip p s) = true.
Proof.
  induction s as [|c t IH]; simpl; [reflexivity|].
  intros H. destruct (p c); [|exact H].
  apply andb_prop in H. now apply IH.
Qed.

Lemma all_chars_rstrip q p s :
  all_chars q s = true -> all_chars q (Py.rstrip p s) = true.
Proof.
  induction s as [|c t IH]; simpl; [reflexivity|].
  intros H. apply andb_prop in H. destruct H as [Hc Ht].
  specialize (IH Ht).
  destruct (Py.rstrip p t) as [|d t'].
  - destruct (p c); simpl; [reflexivity|now rewrite Hc].
  - simpl in *. now rewrite Hc, IH.
Qed.

Lemma all_chars_take q n s :
  all_chars q s = true -> all_chars q (Py.take n s) = true.
Proof.
  revert s. induction n as [|n IH]; intros [|c t]; simpl; try reflexivity.
  intros H. apply andb_prop in H. destruct H as [Hc Ht].
  now rewrite Hc, IH.
Qed.

Lemma length_take n s : String.length (Py.take n s) <= n.
Proof.
  revert s. induction n as [|n IH]; intros [|c t]; simpl; try lia.
  specialize (IH t). lia.
Qed.

Lemma take_all n s : String.length s <= n -> Py.take n s = s.
Proof.
  revert s. induction n as [|n IH]; intros [|c t]; simpl; try reflexivity.
  - lia.
  - intros H. rewrite IH; [reflexivity|lia].
Qed.

Lemma take_short n s : String.length (Py.take n s) < n -> Py.take n s = s.
Proof.
  revert s. induction n as [|n IH]; intros [|c t]; simpl; try reflexivity.
  - lia.
  - intros H. rewrite IH; [reflexivity|lia].
Qed.

Lemma starts_in_lstrip p s : starts_in p (Py.lstrip p s) = false.
Proof.
  induction s as [|c t IH]; simpl; [reflexivity|].
  destruct (p c) eqn:E; [exact IH|]. simpl. exact E.
Qed.

Lemma starts_in_rstrip p s :
  starts_in p s = false -> starts_in p (Py.rstrip p s) = false.
Proof.
  destruct s as [|c t]; simpl; [reflexivity|].
  intros H. destruct (Py.rstrip p t); [rewrite H|]; simpl; exact H.
Qed.

Lemma starts_in_take p n s :
  starts_in p s = false -> starts_in p (Py.take n s) = false.
Proof.
  destruct n, s; simpl; auto.
Qed.

Lemma ends_in_rstrip p s : ends_in p (Py.rstrip p s) = false.
Proof.
  induction s as [|c t IH]; simpl; [reflexivity|].
  destruct (Py.rstrip p t) as [|d t'].
  - destruct (p c) eqn:E; simpl; [reflexivity|exact E].
  - exact IH.
Qed.

Lemma lstrip_none p s : starts_in p s = false -> Py.lstrip p s = s.
Proof.
  destruct s as [|c t]; simpl; [reflexivity|]. now intros ->.
Qed.

Lemma rstrip_none p s : ends_in p s = false -> Py.rstrip p s = s.
Proof.
  induction s as [|c t IH]; [reflexivity|].
  destruct t as [|d t'].
  - simpl. now intros ->.
  - intros H. change (ends_in p (String d t') = false) in H.
    specialize (IH H).
    change (Py.rstrip p (String c (String d t')))
      with (match Py.rstrip p (String d t') with
            | EmptyString => if p c then EmptyString else String c EmptyString
            | t'' => String c t''
            end).
    now rewrite IH.
Qed.

Lemma length_lstrip p s : String.length (Py.lstrip p s) <= String.length s.
Proof.
  induction s as [|c t IH]; simpl; [lia|].
  destruct (p c); simpl; lia.
Qed.

Lemma length_rstrip p s : String.length (Py.rstrip p s) <= String.length s.
Proof.
  induction s as [|c t IH]; simpl; [lia|].
  destruct (Py.rstrip p t); [destruct (p c)|]; simpl in *; lia.
Qed.

Lemma rstrip_nonempty p s :
  s <> "" -> starts_in p s = false -> Py.rstrip p s <> "".
Proof.
  destruct s as [|c t]; [congruence|]. simpl. intros _ H.
  destruct (Py.rstrip p t); [rewrite H|]; discriminate.
Qed.

(** On text made of allowed characters, lowering and filtering do
    nothing. *)
Lemma lower_cons c t :
  allowed c = true -> Py.lower (String c t) = String c (Py.lower t).
Proof.
  intros Hc. destruct (allowed_plain c Hc) as [B1 [B2 [L _]]].
  destruct t as [|c2 [|c3 t3]].
  - simpl. now rewrite L.
  - remember (Py.lower (String c2 "")) as r eqn:Er.
    simpl. rewrite B1, L. simpl. simpl in Er. now rewrite Er.
  - remember (Py.lower (String c2 (String c3 t3))) as r eqn:Er.
    simpl. rewrite B1, B2, L. simpl. simpl in Er. now rewrite Er.
Qed.

Lemma lower_allowed s : all_chars allowed s = true -> Py.lower s = s.
Proof.
  induction s as [|c t IH]; [reflexivity|].
  intros H. simpl in H. apply andb_prop in H. destruct H as [Hc Ht].
  now rewrite (lower_cons _ _ Hc), (IH Ht).
Qed.

Lemma keep_allowed p s : all_chars p s = true -> Py.keep p s = s.
Proof.
  induction s as [|c t IH]; simpl; [reflexivity|].
  intros H. apply andb_prop in H. destruct H as [Hc Ht].
  now rewrite Hc, IH.
Qed.

Lemma allowed_no_slash s :
  all_chars allowed s = true ->
  Py.contains "/" s = false /\ Py.startswith "." s = false /\
  Py.contains ":" s = false.
Proof.
  induction s as [|c t IH]; cbn [Py.contains Py.startswith all_chars];
    [auto|].
  intros H. apply andb_prop in H. destruct H as [Hc Ht].
  destruct (allowed_plain c Hc) as [_ [_ [_ [S1 [S2 S3]]]]].
  destruct (IH Ht) as [I1 [_ I3]].
  now rewrite S1, S2, S3, I1, I3.
Qed.

Lemma normalize_allowed x : all_chars allowed (normalize x) = true.
Proof.
  unfold normalize, Py.strip.
  apply all_chars_take, all_chars_rstrip, all_chars_lstrip, all_chars_keep.
Qed.

Lemma normalize_start x : starts_in separator (normalize x) = false.
Proof.
  unfold normalize, Py.strip.
  apply starts_in_take, starts_in_rstrip, starts_in_lstrip.
Qed.

(** The two "dangerous pattern" tests never fire: the sanitizer fails
    exactly when nothing is left of the id. *)
Lemma sanitize_run x :
  _sanitize_canonical_id x
  = if Py.truthy (normalize x) then Ok (normalize x)
    else Raise (ValueError ("Invalid canonical_id: " ++ x)).
Proof.
  unfold _sanitize_canonical_id.
  destruct (allowed_no_slash _ (normalize_allowed x)) as [-> [-> _]].
  now destruct (Py.truthy (normalize x)).
Qed.

Lemma normalize_fixed k : well_formed_id k -> normalize k = k.
Proof.
  intros [Ha [_ [Hl [Hs He]]]]. unfold normalize, Py.strip.
  rewrite (lower_allowed _ Ha), (keep_allowed _ _ Ha).
  rewrite (lstrip_none _ _ Hs), (rstrip_none _ _ He).
  now apply take_all.
Qed.

Lemma lstrip_empty p s : Py.lstrip p s = "" <-> all_chars p s = true.
Proof.
  induction s as [|c t IH]; simpl; [tauto|].
  destruct (p c); simpl; [exact IH|]. split; discriminate.
Qed.

Lemma strip_empty p s : Py.strip p s = "" <-> all_chars p s = true.
Proof.
  unfold Py.strip. rewrite <- lstrip_empty. split.
  - intros H. destruct (Py.lstrip p s) as [|c t] eqn:E; [reflexivity|].
    exfalso. revert H. apply rstrip_nonempty; [discriminate|].
    rewrite <- E. apply starts_in_lstrip.
  - now intros ->.
Qed.

Lemma take_empty n s : Py.take (S n) s = "" <-> s = "".
Proof. destruct s; simpl; split; congruence. Qed.

Lemma sanitize_shape x k :
  _sanitize_canonical_id x = Ok k ->
  all_chars allowed k = true /\ k <> "" /\ String.length k <= 64 /\
  starts_in separator k = false.
Proof.
  intros Hs. pose proof (sanitize_nonempty _ _ Hs) as Hne.
  apply normalize_ok in Hs. subst k. repeat split; auto.
  - apply normalize_allowed.
  - apply length_take.
  - apply normalize_start.
Qed.

Lemma sanitize_fixed k : well_formed_id k -> _sanitize_canonical_id k = Ok k.
Proof.
  intros Hw. rewrite sanitize_run, (normalize_fixed _ Hw).
  destruct Hw as [_ [Hne _]]. destruct k; [congruence|reflexivity].
Qed.

Lemma short_not_cut x :
  String.length (normalize x) < 64 ->
  ends_in separator (normalize x) = false.
Proof.
  unfold normalize, Py.strip. intros Hl.
  rewrite (take_short _ _ Hl). apply ends_in_rstrip.
Qed.

(* ================================================================= *)
(** * The sanitizer *)

(** X1: an id the sanitizer returns is made of characters of [a-z0-9\-_]
    only, is not empty, has at most 64 characters and does not begin with a
    hyphen or an underscore. *)
Theorem sanitize_output_shape x k :
  _sanitize_canonical_id x = Ok k ->
  all_chars allowed k = true /\ k <> "" /\ String.length k <= 64 /\
  starts_in separator k = false.
Proof. apply sanitize_shape. Qed.

Lemma sanitize_output_shape_witness :
  all_chars allowed "etcpasswd" = true /\ "etcpasswd" <> "" /\
  String.length "etcpasswd" <= 64 /\
  starts_in separator "etcpasswd" = false.
Proof.
  apply (sanitize_output_shape "../etc/passwd" "etcpasswd"). reflexivity.
Defined.

(** X2: the sanitizer raises exactly when, after lowering, the id has no
    letter and no digit left, that is when every character that survives
    the filter is a hyphen or an underscore; the error is then the
    ValueError naming the id as given, and otherwise the result is the
    normal form.  The tests for a leading dot and for a slash never
    decide. *)
Theorem sanitize_fails_iff_nothing_left x :
  (all_chars separator (Py.keep allowed (Py.lower x)) = true <->
   _sanitize_canonical_id x
   = Raise (ValueError ("Invalid canonical_id: " ++ x))) /\
  (all_chars separator (Py.keep allowed (Py.lower x)) = false <->
   _sanitize_canonical_id x = Ok (normalize x)).
Proof.
  rewrite sanitize_run.
  pose proof (strip_empty separator (Py.keep allowed (Py.lower x))) as E.
  pose proof (take_empty 63 (Py.strip separator
                               (Py.keep allowed (Py.lower x)))) as T.
  change (Py.take 64 (Py.strip separator (Py.keep allowed (Py.lower x))))
    with (normalize x) in T.
  destruct (normalize x) as [|a s] eqn:N; simpl.
  - assert (A : all_chars separator (Py.keep allowed (Py.lower x)) = true)
      by (apply E, T; reflexivity).
    rewrite A. split; split; congruence.
  - assert (A : all_chars separator (Py.keep allowed (Py.lower x)) = false).
    { apply not_true_is_false. intros A. apply E, T in A. discriminate. }
    rewrite A. split; split; congruence.
Qed.

(** X3: an id already in normal form (allowed characters only, between 1
    and 64 of them, no hyphen or underscore at either end) is returned as
    it is. *)
Theorem sanitize_fixed_point k :
  well_formed_id k -> _sanitize_canonical_id k = Ok k.
Proof. apply sanitize_fixed. Qed.

Lemma sanitize_fixed_point_witness :
  _sanitize_canonical_id "user-123_test" = Ok "user-123_test".
Proof.
  apply sanitize_fixed_point. unfold well_formed_id.
  repeat split; try reflexivity; [discriminate | simpl; lia].
Defined.

(** X4: sanitizing is idempotent wherever the cut at 64 characters did not
    expose a separator: if the result is shorter than 64 characters, or does
    not end in a hyphen or underscore, sanitizing it returns it
    unchanged. *)
Theorem sanitize_idempotent_uncut x k :
  _sanitize_canonical_id x = Ok k ->
  String.length k < 64 \/ ends_in separator k = false ->
  _sanitize_canonical_id k = Ok k.
Proof.
  intros Hs Hc. destruct (sanitize_shape _ _ Hs) as [Ha [Hne [Hl Hst]]].
  apply sanitize_fixed. repeat split; auto.
  destruct Hc as [Hc|Hc]; [|exact Hc].
  apply normalize_ok in Hs. subst k. now apply short_not_cut.
Qed.

Lemma sanitize_idempotent_uncut_witness :
  _sanitize_canonical_id "test-user" = Ok "test-user".
Proof.
  apply (sanitize_idempotent_uncut "  Test-User!_ " "test-user").
  - reflexivity.
  - left. simpl. lia.
Defined.

(** X5: the sanitizer never rejects its own output, and from the second
    application on it changes nothing: the second result is in normal form
    and is a fixed point. *)
Theorem sanitize_stabilizes x k :
  _sanitize_canonical_id x = Ok k ->
  exists k2,
    _sanitize_canonical_id k = Ok k2 /\
    well_formed_id k2 /\
    _sanitize_canonical_id k2 = Ok k2.
Proof.
  intros Hs. destruct (sanitize_shape _ _ Hs) as [Ha [Hne [Hl Hst]]].
  assert (N : normalize k = Py.rstrip separator k).
  { unfold normalize, Py.strip.
    rewrite (lower_allowed _ Ha), (keep_allowed _ _ Ha).
    rewrite (lstrip_none _ _ Hst). apply take_all.
    pose proof (length_rstrip separator k). lia. }
  assert (W : well_formed_id (Py.rstrip separator k)).
  { repeat split.
    - now apply all_chars_rstrip.
    - now apply rstrip_nonempty.
    - pose proof (length_rstrip separator k). lia.
    - now apply starts_in_rstrip.
    - apply ends_in_rstrip. }
  exists (Py.rstrip separator k). repeat split; try apply W.
  - rewrite sanitize_run, N.
    destruct W as [_ [W _]].
    destruct (Py.rstrip separator k); [congruence|reflexivity].
  - now apply sanitize_fixed.
Qed.

Lemma sanitize_stabilizes_witness :
  exists k2,
    _sanitize_canonical_id (repeated "a" 63 ++ "-") = Ok k2 /\
    well_formed_id k2 /\
    _sanitize_canonical_id k2 = Ok k2.
Proof.
  apply (sanitize_stabilizes long_id). vm_compute. reflexivity.
Defined.

(** X6: no id the sanitizer returns contains a colon, so a "stranger:..."
    string the resolver hands out for an unknown contact is never an id
    that [add_channel] stores an entry under. *)
Theorem stranger_never_canonical x channel pid :
  _sanitize_canonical_id x <> Ok ("stranger:" ++ channel ++ ":" ++ pid).
Proof.
  intros Hs. destruct (sanitize_shape _ _ Hs) as [Ha _].
  destruct (allowed_no_slash _ Ha) as [_ [_ Hc]].
  simpl in Hc. discriminate.
Qed.

(* ================================================================= *)
(** * The map file *)

Lemma sorted_insert e ids :
  keys_sorted ids = true -> keys_sorted (Dict.insert_sorted e ids) = true.
Proof.
  induction ids as [|e' t IH]; [reflexivity|].
  intros Hs. cbn [Dict.insert_sorted].
  destruct (String.leb (fst e) (fst e')) eqn:L.
  - cbn [keys_sorted]. cbn [keys_sorted] in Hs. now rewrite L, Hs.
  - assert (L' : String.leb (fst e') (fst e) = true)
      by (destruct (String.leb_total (fst e) (fst e')); congruence).
    destruct t as [|e'' t'].
    + cbn. now rewrite L'.
    + assert (Ht : keys_sorted (e'' :: t') = true).
      { cbn [keys_sorted] in Hs. now apply andb_prop in Hs. }
      assert (Hh : String.leb (fst e') (fst e'') = true).
      { cbn [keys_sorted] in Hs. now apply andb_prop in Hs. }
      specialize (IH Ht). cbn [Dict.insert_sorted] in IH |- *.
      destruct (String.leb (fst e) (fst e'')).
      * change (keys_sorted (e' :: e :: e'' :: t'))
          with (String.leb (fst e') (fst e)
                && keys_sorted (e :: e'' :: t'))%bool.
        now rewrite L', IH.
      * change (keys_sorted (e' :: e'' :: Dict.insert_sorted e t'))
          with (String.leb (fst e') (fst e'')
                && keys_sorted (e'' :: Dict.insert_sorted e t'))%bool.
        now rewrite Hh, IH.
Qed.

Lemma sorted_sort ids : keys_sorted (Dict.sort_keys ids) = true.
Proof.
  induction ids as [|e t IH]; [reflexivity|].
  cbn [Dict.sort_keys fold_right]. now apply sorted_insert.
Qed.

Lemma sort_sorted ids : keys_sorted ids = true -> Dict.sort_keys ids = ids.
Proof.
  induction ids as [|e t IH]; [reflexivity|].
  intros Hs. cbn [Dict.sort_keys fold_right].
  change (fold_right Dict.insert_sorted [] t) with (Dict.sort_keys t).
  destruct t as [|e' t']; [reflexivity|].
  cbn [keys_sorted] in Hs. apply andb_prop in Hs. destruct Hs as [L Ht].
  rewrite (IH Ht). cbn [Dict.insert_sorted]. now rewrite L.
Qed.

Lemma path_save data w :
  _get_identity_map_path (snd (_save_identity_map data w))
  = _get_identity_map_path w.
Proof.
  unfold _save_identity_map, _get_identity_map_path. cbn [snd].
  destruct (data_file w) eqn:D, (memory_file w) eqn:Me; cbn; reflexivity.
Qed.

Lemma read_save data w :
  read_path (_get_identity_map_path (snd (_save_identity_map data w)))
            (snd (_save_identity_map data w))
  = Some (Json (version data) (Some (Dict.sort_keys (identities data)))).
Proof.
  unfold _save_identity_map, _get_identity_map_path, read_path. cbn [snd].
  destruct (data_file w) eqn:D, (memory_file w) eqn:Me; cbn; auto.
Qed.

(** X7: what [_load_identity_map] reads back after [_save_identity_map] has
    the version that was saved and the same entry under every key, with the
    keys in sorted order; saving the map just loaded writes the same file
    content again. *)
Theorem save_load_round_trip data w :
  let w1 := snd (_save_identity_map data w) in
  let w2 := snd (_save_identity_map (_load_identity_map w1) w1) in
  version (_load_identity_map w1) = version data /\
  (forall k, Dict.get k (store w1) = Dict.get k (identities data)) /\
  Permutation (store w1) (identities data) /\
  keys_sorted (store w1) = true /\
  data_file w2 = data_file w1 /\ memory_file w2 = memory_file w1.
Proof.
  intros w1 w2. subst w2.
  assert (L : _load_identity_map w1
              = mkMap (version data) (Dict.sort_keys (identities data)))
    by apply load_save.
  assert (S1 : store w1 = Dict.sort_keys (identities data))
    by apply store_save.
  repeat apply conj.
  - now rewrite L.
  - intros k. rewrite S1. apply get_sort_keys.
  - rewrite S1. apply perm_sort_keys.
  - rewrite S1. apply sorted_sort.
  - rewrite L. subst w1. unfold _save_identity_map. cbn [snd].
    cbn [version identities].
    rewrite (sort_sorted _ (sorted_sort _)).
    destruct (_get_identity_map_path w) eqn:P;
      unfold _get_identity_map_path in *; cbn;
      destruct (data_file w), (memory_file w); try discriminate; reflexivity.
  - rewrite L. subst w1. unfold _save_identity_map. cbn [snd].
    cbn [version identities].
    rewrite (sort_sorted _ (sorted_sort _)).
    destruct (_get_identity_map_path w) eqn:P;
      unfold _get_identity_map_path in *; cbn;
      destruct (data_file w), (memory_file w); try discriminate; reflexivity.
Qed.

(** X8: [_save_identity_map] writes data/identity-map.json and leaves the
    legacy memory/identity-map.json alone, except in a workspace that has
    the legacy file only: there it writes the legacy file and creates no
    data file.  Either way the file it wrote is the one the next call
    selects, and while the data file exists the legacy file has no
    influence on what is loaded. *)
Theorem save_target data w :
  let w1 := snd (_save_identity_map data w) in
  let written :=
    Some (Json (version data) (Some (Dict.sort_keys (identities data)))) in
  (match data_file w, memory_file w with
   | None, Some _ => data_file w1 = None /\ memory_file w1 = written
   | _, _ => data_file w1 = written /\ memory_file w1 = memory_file w
   end) /\
  _get_identity_map_path w1 = _get_identity_map_path w /\
  read_path (_get_identity_map_path w1) w1 = written /\
  (forall legacy,
     data_file w <> None ->
     _load_identity_map
       (mkWorld (data_file w) legacy (user_md w) (utcnow w) (clock w)
                (saves w))
     = _load_identity_map w).
Proof.
  intros w1 written. subst w1 written. repeat apply conj.
  - unfold _save_identity_map, _get_identity_map_path. cbn [snd].
    destruct (data_file w) eqn:D, (memory_file w) eqn:Me; cbn; auto.
  - apply path_save.
  - apply read_save.
  - intros legacy Hd.
    unfold _load_identity_map, _get_identity_map_path, read_path. cbn.
    destruct (data_file w); [reflexivity|congruence].
Qed.

(** X9: when the map file is missing, or [json.load] raises JSONDecodeError
    on it, or it is a JSON object without "identities", the first
    [add_channel] with an id the sanitizer accepts writes a map of version
    "1.0" holding the new entry and nothing else: whatever the file held
    before is gone. *)
Theorem first_write_replaces_unreadable cid channel pid dn w k :
  _sanitize_canonical_id cid = Ok k ->
  match read_path (_get_identity_map_path w) w with
  | Some (Json _ (Some _)) => False
  | _ => True
  end ->
  let w1 := snd (add_channel cid channel pid dn w) in
  read_path (_get_identity_map_path w1) w1
  = Some (Json (Some "1.0")
               (Some [(k, UserData.mk k false (default_display_name dn k)
                                      [channel ++ ":" ++ pid]
                                      (stamp_at w 0) (stamp_at w 2))])).
Proof.
  intros Hs Hr w1. subst w1.
  assert (L : _load_identity_map w = empty_map).
  { unfold _load_identity_map.
    destruct (read_path (_get_identity_map_path w) w) as [[|ver [ids|]]|];
      [reflexivity|contradiction|reflexivity|reflexivity]. }
  assert (Hg : Dict.get k (store w) = None)
    by (unfold store; now rewrite L).
  rewrite (add_channel_new _ _ _ _ _ _ Hs Hg), L.
  rewrite read_save. cbn. now rewrite String.eqb_refl.
Qed.

Lemma first_write_replaces_unreadable_witness :
  let w1 := snd (add_channel "Alice" "tg" "1" None corrupted) in
  read_path (_get_identity_map_path w1) w1
  = Some (Json (Some "1.0")
               (Some [("alice",
                       UserData.mk "alice" false
                                   (default_display_name None "alice")
                                   ["tg:1"]
                                   (stamp_at corrupted 0)
                                   (stamp_at corrupted 2))])).
Proof.
  apply (first_write_replaces_unreadable "Alice" "tg" "1" None corrupted
                                         "alice");
    [reflexivity | exact I].
Defined.

(* ================================================================= *)
(** * The resolver, further *)

(** The five ways a resolver call can go. *)
Lemma resolve_cases channel pid on w :
  let c := channel ++ ":" ++ pid in
  let out := resolve_canonical_id channel pid on w in
  (exists k, find_mapped c (store w) = Some k /\ out = (Ok k, w)) \/
  (find_mapped c (store w) = None /\
   Py.mem pid (owner_candidates on w) = false /\
   out = (Ok ("stranger:" ++ channel ++ ":" ++ pid), w)) \/
  (find_mapped c (store w) = None /\
   Py.mem pid (owner_candidates on w) = true /\
   exists oc u,
     find_owner (store w) = Some oc /\ oc <> "" /\
     Dict.get oc (store w) = Some u /\
     out = (Ok oc,
            snd (_save_identity_map
                   (set_identity oc
                      (with_channels (UserData.channels u ++ [c])%list
                                     (stamp_at w 0) u)
                      (_load_identity_map w))
                   (ticked 1 w)))) \/
  (find_mapped c (store w) = None /\
   Py.mem pid (owner_candidates on w) = true /\
   (find_owner (store w) = None \/ find_owner (store w) = Some "") /\
   exists oc,
     pick_owner_name (user_md w) = Ok oc /\
     out = (Ok oc,
            snd (_save_identity_map
                   (set_identity oc
                      (with_channels [c] (stamp_at w 2) (fresh_owner oc w))
                      (set_identity oc (fresh_owner oc w)
                                    (_load_identity_map w)))
                   (ticked 3 w)))) \/
  (find_mapped c (store w) = None /\
   Py.mem pid (owner_candidates on w) = true /\
   (find_owner (store w) = None \/ find_owner (store w) = Some "") /\
   exists e,
     pick_owner_name (user_md w) = Raise e /\ out = (Raise e, w)).
Proof.
  intros c out. subst out.
  destruct (find_mapped c (store w)) as [k|] eqn:Hf.
  { left. exists k. split; [reflexivity|]. now apply resolve_mapped. }
  right.
  destruct (Py.mem pid (owner_candidates on w)) eqn:Hc.
  2:{ left. repeat split. now apply resolve_stranger. }
  right.
  assert (Hcase : (exists oc, find_owner (store w) = Some oc /\ oc <> "")
                  \/ (find_owner (store w) = None
                      \/ find_owner (store w) = Some "")).
  { destruct (find_owner (store w)) as [[|a s]|]; eauto.
    left. exists (String a s). split; [reflexivity|discriminate]. }
  destruct Hcase as [[oc [Ho Hne]]|Ho].
  - destruct (find_owner_key _ _ Ho) as [u Hg].
    left. repeat split. exists oc, u. repeat split; auto.
    now apply resolve_reuse.
  - right. destruct (pick_owner_name (user_md w)) as [oc|e] eqn:Hp.
    + left. repeat split; auto. exists oc. split; [reflexivity|].
      now apply resolve_create.
    + right. repeat split; auto. exists e. split; [reflexivity|].
      now apply resolve_create_fails.
Qed.

Lemma find_mapped_holder c ids k u :
  Dict.count (holds c) ids <= 1 ->
  In (k, u) ids -> In c (UserData.channels u) ->
  find_mapped c ids = Some k.
Proof.
  intros Hu Hin Hc.
  destruct (find_mapped c ids) as [k'|] eqn:Hf.
  - destruct (find_mapped_some _ _ _ Hf) as [u' [Hin' Hc']].
    assert (E : (k, u) = (k', u')).
    { apply (count_le_one_unique (holds c) ids); auto;
        unfold holds; simpl; now apply mem_In. }
    now injection E as -> ->.
  - apply find_mapped_none in Hf. rewrite count_zero in Hf.
    specialize (Hf _ Hin). unfold holds in Hf. simpl in Hf.
    apply mem_false in Hf. contradiction.
Qed.

Lemma holders_after_set c ids k u' :
  Dict.count (holds c) ids = 0 -> In c (UserData.channels u') ->
  Dict.count (holds c) (Dict.set k u' ids) = 1.
Proof.
  intros Hz Hc.
  pose proof (count_set (holds c) k u' ids) as E.
  change (holds c (k, u')) with (Py.mem c (UserData.channels u')) in E.
  apply mem_In in Hc. rewrite Hc, Hz in E.
  destruct (Dict.get k ids) as [o|] eqn:G; [|simpl in E; lia].
  rewrite count_zero in Hz. rewrite (Hz _ (get_in _ _ _ G)) in E.
  simpl in E. lia.
Qed.

Lemma found_after_set c ids k u' :
  Dict.count (holds c) ids = 0 -> In c (UserData.channels u') ->
  find_mapped c (Dict.sort_keys (Dict.set k u' ids)) = Some k.
Proof.
  intros Hz Hc. apply find_mapped_holder with (u := u'); auto.
  - rewrite count_sort_keys, (holders_after_set _ _ _ _ Hz Hc). lia.
  - apply in_sort_keys. apply get_in. apply get_set_same.
Qed.

(** X10: resolving a pair a second time, with nothing done in between,
    returns the id the first call returned and changes nothing: whatever the
    first call registered, the second finds by lookup. *)
Theorem resolve_twice channel pid on w k :
  fst (resolve_canonical_id channel pid on w) = Ok k ->
  let w1 := snd (resolve_canonical_id channel pid on w) in
  resolve_canonical_id channel pid on w1 = (Ok k, w1).
Proof.
  intros H1 w1. subst w1.
  destruct (resolve_cases channel pid on w)
    as [[k0 [Hf E]]
       |[[Hf [Hc E]]
        |[[Hf [Hc [oc [u [Ho [Hne [Hg E]]]]]]]
         |[[Hf [Hc [Ho [oc [Hp E]]]]]
          |[Hf [Hc [Ho [e [Hp E]]]]]]]]];
    rewrite E in H1 |- *; cbn [fst snd] in *.
  - injection H1 as <-. now apply resolve_mapped.
  - injection H1 as <-. now apply resolve_stranger.
  - injection H1 as <-. apply resolve_mapped. rewrite store_save.
    cbn [set_identity identities]. fold (store w).
    apply found_after_set; [now apply find_mapped_none|].
    cbn. apply in_or_app. right. now left.
  - injection H1 as <-. apply resolve_mapped. rewrite store_save.
    cbn [set_identity identities]. fold (store w).
    apply found_after_set; [|now left].
    apply holders_create; [now apply find_mapped_none|reflexivity].
  - discriminate.
Qed.

Lemma resolve_twice_witness :
  let w1 := snd (resolve_canonical_id "telegram" "1234567" None
                   (fresh (Some named_profile) frozen_clock)) in
  resolve_canonical_id "telegram" "1234567" None w1 = (Ok "test", w1).
Proof.
  apply (resolve_twice "telegram" "1234567" None
                       (fresh (Some named_profile) frozen_clock) "test").
  reflexivity.
Defined.

(** X12: a resolver call that reuses the owner appends the channel string at
    the end of the owner's channel list, stamps [updated_at] with the one
    clock reading it makes, keeps the entry's other fields and every other
    entry, and saves once. *)
Theorem owner_reuse_appends channel pid on w oc u :
  find_mapped (channel ++ ":" ++ pid) (store w) = None ->
  Py.mem pid (owner_candidates on w) = true ->
  find_owner (store w) = Some oc -> oc <> "" ->
  Dict.get oc (store w) = Some u ->
  let out := resolve_canonical_id channel pid on w in
  fst out = Ok oc /\
  Dict.get oc (store (snd out))
  = Some (UserData.mk (UserData.canonical_id u) (UserData.is_owner u)
                      (UserData.display_name u)
                      (UserData.channels u ++ [channel ++ ":" ++ pid]%string)
                      (UserData.created_at u) (stamp_at w 0)) /\
  (forall k, k <> oc ->
     Dict.get k (store (snd out)) = Dict.get k (store w)) /\
  saves (snd out) = S (saves w) /\ clock (snd out) = S (clock w).
Proof.
  intros Hf Hc Ho Hne Hg out. subst out.
  rewrite (resolve_reuse _ _ _ _ _ _ Hf Hc Ho Hne Hg). cbn [fst snd].
  rewrite store_save, saves_save. cbn [set_identity identities].
  fold (store w). repeat apply conj; try reflexivity.
  - now rewrite get_sort_keys, get_set_same.
  - intros k Hk. now rewrite get_sort_keys, get_set_other.
  - unfold _save_identity_map. cbn [snd].
    now destruct (_get_identity_map_path (ticked 1 w)).
Qed.

Lemma owner_reuse_appends_witness :
  let out := resolve_canonical_id "whatsapp" "+1234567890"
               (Some ["+1234567890"]) owned in
  fst out = Ok "test" /\
  Dict.get "test" (store (snd out))
  = Some (UserData.mk "test" true "Test"
                      ["telegram:1234567"; "whatsapp:+1234567890"]
                      "2026-01-01T00:00:00+00:00Z" (stamp_at owned 0)) /\
  (forall k, k <> "test" ->
     Dict.get k (store (snd out)) = Dict.get k (store owned)) /\
  saves (snd out) = S (saves owned) /\ clock (snd out) = S (clock owned).
Proof.
  refine (owner_reuse_appends "whatsapp" "+1234567890"
            (Some ["+1234567890"]) owned "test"
            (UserData.mk "test" true "Test" ["telegram:1234567"]
                         "2026-01-01T00:00:00+00:00Z"
                         "2026-01-01T00:00:00+00:00Z") _ _ _ _ _);
    try reflexivity.
  discriminate.
Defined.

(* ================================================================= *)
(** * The channel manager, further *)

Lemma count_remove_first x y l :
  count_occ string_dec (Py.remove_first x l) y
  = if string_dec y x then pred (count_occ string_dec l x)
    else count_occ string_dec l y.
Proof.
  induction l as [|z t IH]; simpl.
  - now destruct (string_dec y x).
  - destruct (String.eqb_spec x z) as [<-|Hxz].
    + destruct (string_dec x x) as [_|N]; [|congruence].
      destruct (string_dec y x) as [->|Hyx]; [reflexivity|].
      destruct (string_dec x y); [congruence|reflexivity].
    + simpl. rewrite IH.
      destruct (string_dec z x) as [E|_]; [congruence|].
      destruct (string_dec y x) as [->|Hyx].
      * destruct (string_dec z x); [congruence|reflexivity].
      * reflexivity.
Qed.

Lemma remove_first_absent x l : ~ In x l -> Py.remove_first x l = l.
Proof.
  induction l as [|z t IH]; simpl; [reflexivity|].
  intros H. destruct (String.eqb_spec x z) as [->|_].
  - exfalso. apply H. now left.
  - rewrite IH; [reflexivity|]. intros Hin. apply H. now right.
Qed.

Lemma remove_first_last x l : ~ In x l -> Py.remove_first x (l ++ [x]) = l.
Proof.
  induction l as [|z t IH]; simpl.
  - now rewrite String.eqb_refl.
  - intros H. destruct (String.eqb_spec x z) as [->|_].
    + exfalso. apply H. now left.
    + rewrite IH; [reflexivity|]. intros Hin. apply H. now right.
Qed.

(** [add_channel] in terms of the channel list it finds for the id. *)
Lemma add_channel_effect cid channel pid dn w k :
  _sanitize_canonical_id cid = Ok k ->
  let c := channel ++ ":" ++ pid in
  let cs := channels_of k (store w) in
  let w1 := snd (add_channel cid channel pid dn w) in
  if Py.mem c cs then add_channel cid channel pid dn w = (Ok tt, w)
  else channels_of k (store w1) = (cs ++ [c])%list /\
       Dict.mem k (store w1) = true /\
       saves w1 = S (saves w).
Proof.
  intros Hs c cs w1. subst cs w1. unfold channels_of.
  destruct (Dict.get k (store w)) as [u|] eqn:Hg.
  - rewrite (add_channel_known _ _ _ _ _ _ _ Hs Hg). fold c.
    destruct (Py.mem c (UserData.channels u)); [reflexivity|].
    rewrite store_save, saves_save. cbn [set_identity identities].
    unfold Dict.mem. rewrite get_sort_keys, get_set_same. auto.
  - cbn [Py.mem existsb].
    rewrite (add_channel_new _ _ _ _ _ _ Hs Hg).
    rewrite store_save, saves_save. cbn [set_identity identities].
    unfold Dict.mem. rewrite get_sort_keys, get_set_same. auto.
Qed.

(** [remove_channel] in terms of the channel list it finds for the id. *)
Lemma remove_channel_effect cid channel pid w k :
  _sanitize_canonical_id cid = Ok k ->
  let c := channel ++ ":" ++ pid in
  let cs := channels_of k (store w) in
  let w1 := snd (remove_channel cid channel pid w) in
  if Py.mem c cs
  then channels_of k (store w1) = Py.remove_first c cs /\
       saves w1 = S (saves w)
  else remove_channel cid channel pid w = (Ok tt, w).
Proof.
  intros Hs c cs w1. subst cs w1. unfold channels_of.
  destruct (Dict.get k (store w)) as [u|] eqn:Hg.
  - rewrite (remove_channel_known _ _ _ _ _ _ Hs Hg). fold c.
    destruct (Py.mem c (UserData.channels u)); [|reflexivity].
    rewrite store_save, saves_save. cbn [set_identity identities].
    rewrite get_sort_keys, get_set_same. auto.
  - cbn [Py.mem existsb].
    now apply (remove_channel_unknown _ _ _ _ k).
Qed.

(** X13: [remove_channel] for an id without entry, or for a channel string
    the entry does not list, returns normally and leaves the workspace as
    it was: nothing saved, no timestamp changed. *)
Theorem remove_channel_absent cid channel pid w k :
  _sanitize_canonical_id cid = Ok k ->
  ~ In (channel ++ ":" ++ pid) (channels_of k (store w)) ->
  remove_channel cid channel pid w = (Ok tt, w).
Proof.
  intros Hs Hn. pose proof (remove_channel_effect _ channel pid w _ Hs) as E.
  cbv zeta in E. apply mem_false in Hn. now rewrite Hn in E.
Qed.

Lemma remove_channel_absent_witness :
  remove_channel "nonexistent" "discord" "user#1234" owned = (Ok tt, owned).
Proof.
  apply (remove_channel_absent "nonexistent" "discord" "user#1234" owned
                               "nonexistent").
  - reflexivity.
  - simpl. tauto.
Defined.

(** X14: [remove_channel] takes the first occurrence of the channel string
    off the entry's list and keeps the rest in order; so the string is
    listed once less (not at all if it was listed once) and every other
    channel string as often as before. *)
Theorem remove_channel_takes_one cid channel pid w k :
  _sanitize_canonical_id cid = Ok k ->
  let c := channel ++ ":" ++ pid in
  let cs := channels_of k (store w) in
  let cs1 := channels_of k (store (snd (remove_channel cid channel pid w))) in
  cs1 = Py.remove_first c cs /\
  (forall c',
     count_occ string_dec cs1 c'
     = if string_dec c' c then pred (count_occ string_dec cs c)
       else count_occ string_dec cs c') /\
  (count_occ string_dec cs c <= 1 -> ~ In c cs1).
Proof.
  intros Hs c cs cs1.
  assert (E : cs1 = Py.remove_first c cs).
  { subst cs1. pose proof (remove_channel_effect _ channel pid w _ Hs) as E.
    cbv zeta in E. fold c cs in E.
    destruct (Py.mem c cs) eqn:Hm; [apply E|].
    rewrite E. cbn [snd]. fold cs. symmetry.
    apply remove_first_absent. now apply mem_false. }
  split; [exact E|]. rewrite E. split.
  - intros c'. apply count_remove_first.
  - intros Hle Hin. apply (count_occ_In string_dec) in Hin.
    rewrite count_remove_first in Hin.
    destruct (string_dec c c); [lia|congruence].
Qed.

Lemma remove_channel_takes_one_witness :
  let cs1 := channels_of "test"
               (store (snd (remove_channel "Test" "telegram" "1234567"
                                           owned))) in
  cs1 = Py.remove_first "telegram:1234567"
                        (channels_of "test" (store owned)) /\
  (forall c',
     count_occ string_dec cs1 c'
     = if string_dec c' "telegram:1234567"
       then pred (count_occ string_dec (channels_of "test" (store owned))
                            "telegram:1234567")
       else count_occ string_dec (channels_of "test" (store owned)) c') /\
  (count_occ string_dec (channels_of "test" (store owned))
             "telegram:1234567" <= 1 ->
   ~ In "telegram:1234567" cs1).
Proof.
  apply (remove_channel_takes_one "Test" "telegram" "1234567" owned "test").
  reflexivity.
Defined.

(** X15: [add_channel] and [remove_channel] touch no entry but the one
    under the sanitized id: every other key maps to what it did. *)
Theorem channel_edits_are_local cid channel pid dn w k' :
  _sanitize_canonical_id cid <> Ok k' ->
  Dict.get k' (store (snd (add_channel cid channel pid dn w)))
  = Dict.get k' (store w) /\
  Dict.get k' (store (snd (remove_channel cid channel pid w)))
  = Dict.get k' (store w).
Proof.
  intros Hne. split.
  - destruct (add_channel_store cid channel pid dn w)
      as [->|[k [Hs [[u [_ [_ ->]]]|[_ ->]]]]]; [reflexivity|..];
      assert (Hk : k' <> k) by congruence;
      now rewrite get_sort_keys, !get_set_other.
  - destruct (remove_channel_store cid channel pid w)
      as [->|[k [u [Hs [_ [_ ->]]]]]]; [reflexivity|].
    assert (Hk : k' <> k) by congruence.
    now rewrite get_sort_keys, get_set_other.
Qed.

Lemma channel_edits_are_local_witness :
  Dict.get "test" (store (snd (add_channel "alice" "discord" "alice#1234"
                                           None owned)))
  = Dict.get "test" (store owned) /\
  Dict.get "test" (store (snd (remove_channel "alice" "discord" "alice#1234"
                                              owned)))
  = Dict.get "test" (store owned).
Proof.
  apply (channel_edits_are_local "alice" "discord" "alice#1234" None owned
                                 "test").
  vm_compute. discriminate.
Defined.

(** X16: for an id without entry, [add_channel] stores an entry filed under
    the sanitized id, not flagged owner, named by the given display name or,
    when none or an empty one is given, by the capitalized id, listing just
    the new channel string, with [created_at] from the first of its three
    clock readings and [updated_at] from the third; it saves once. *)
Theorem add_channel_creates cid channel pid dn w k :
  _sanitize_canonical_id cid = Ok k ->
  Dict.get k (store w) = None ->
  let w1 := snd (add_channel cid channel pid dn w) in
  Dict.get k (store w1)
  = Some (UserData.mk k false
            (match dn with
             | Some (String a s) => String a s
             | _ => Py.capitalize k
             end)
            [channel ++ ":" ++ pid] (stamp_at w 0) (stamp_at w 2)) /\
  List.length (store w1) = S (List.length (store w)) /\
  saves w1 = S (saves w) /\ clock w1 = 3 + clock w.
Proof.
  intros Hs Hg w1. subst w1.
  rewrite (add_channel_new _ _ _ _ _ _ Hs Hg).
  rewrite store_save, saves_save. cbn [set_identity identities].
  fold (store w). repeat apply conj; try reflexivity.
  - rewrite get_sort_keys, get_set_same. unfold with_channels, fresh_user.
    cbn. now destruct dn as [[|a s]|].
  - rewrite length_sort_keys, !length_set. unfold Dict.mem.
    now rewrite get_set_same, Hg.
  - unfold _save_identity_map. cbn [snd].
    now destruct (_get_identity_map_path (ticked 3 w)).
Qed.

Lemma add_channel_creates_witness :
  let w1 := snd (add_channel "Charlie" "telegram" "555555"
                             (Some "Charlie Brown") owned) in
  Dict.get "charlie" (store w1)
  = Some (UserData.mk "charlie" false "Charlie Brown" ["telegram:555555"]
                      (stamp_at owned 0) (stamp_at owned 2)) /\
  List.length (store w1) = S (List.length (store owned)) /\
  saves w1 = S (saves owned) /\ clock w1 = 3 + clock owned.
Proof.
  apply (add_channel_creates "Charlie" "telegram" "555555"
                             (Some "Charlie Brown") owned "charlie");
    reflexivity.
Defined.

(** X17: for an id that has an entry not listing the channel string,
    [add_channel] appends the string at the end of the list and stamps
    [updated_at]; the entry keeps its [canonical_id], owner flag,
    [created_at] and display name, whatever display name is passed, and no
    entry is added. *)
Theorem add_channel_extends cid channel pid dn w k u :
  _sanitize_canonical_id cid = Ok k ->
  Dict.get k (store w) = Some u ->
  ~ In (channel ++ ":" ++ pid) (UserData.channels u) ->
  let w1 := snd (add_channel cid channel pid dn w) in
  Dict.get k (store w1)
  = Some (UserData.mk (UserData.canonical_id u) (UserData.is_owner u)
                      (UserData.display_name u)
                      (UserData.channels u ++ [channel ++ ":" ++ pid]%string)
                      (UserData.created_at u) (stamp_at w 0)) /\
  List.length (store w1) = List.length (store w) /\
  saves w1 = S (saves w).
Proof.
  intros Hs Hg Hn w1. subst w1. apply mem_false in Hn.
  rewrite (add_channel_known _ _ _ _ _ _ _ Hs Hg), Hn.
  rewrite store_save, saves_save. cbn [set_identity identities].
  fold (store w). repeat apply conj; try reflexivity.
  - now rewrite get_sort_keys, get_set_same.
  - rewrite length_sort_keys, length_set. unfold Dict.mem. now rewrite Hg.
Qed.

Lemma add_channel_extends_witness :
  let w1 := snd (add_channel "TEST" "discord" "t#1" (Some "Somebody") owned) in
  Dict.get "test" (store w1)
  = Some (UserData.mk "test" true "Test" ["telegram:1234567"; "discord:t#1"]
                      "2026-01-01T00:00:00+00:00Z" (stamp_at owned 0)) /\
  List.length (store w1) = List.length (store owned) /\
  saves w1 = S (saves owned).
Proof.
  refine (add_channel_extends "TEST" "discord" "t#1" (Some "Somebody") owned
            "test"
            (UserData.mk "test" true "Test" ["telegram:1234567"]
                         "2026-01-01T00:00:00+00:00Z"
                         "2026-01-01T00:00:00+00:00Z") _ _ _);
    try reflexivity.
  simpl. intros [E|[]]. discriminate.
Defined.

(** X18: adding a channel string an id does not list and removing it again
    gives back the channel list the id had, in two saves; an entry created
    by the first call stays, with an empty list. *)
Theorem add_then_remove cid channel pid dn w k :
  _sanitize_canonical_id cid = Ok k ->
  ~ In (channel ++ ":" ++ pid) (channels_of k (store w)) ->
  let w1 := snd (add_channel cid channel pid dn w) in
  let w2 := snd (remove_channel cid channel pid w1) in
  channels_of k (store w2) = channels_of k (store w) /\
  Dict.mem k (store w2) = true /\
  saves w2 = 2 + saves w.
Proof.
  intros Hs Hn w1 w2. subst w2 w1.
  pose proof (add_channel_effect _ channel pid dn w _ Hs) as A.
  cbv zeta in A. rewrite (proj2 (mem_false _ _) Hn) in A.
  destruct A as [A1 [A2 A3]].
  pose proof (remove_channel_effect _ channel pid
                (snd (add_channel cid channel pid dn w)) _ Hs) as R.
  cbv zeta in R. rewrite A1, mem_app in R. simpl in R.
  rewrite String.eqb_refl, orb_true_r in R. destruct R as [R1 R2].
  repeat apply conj.
  - rewrite R1. now apply remove_first_last.
  - destruct (remove_channel_store cid channel pid
                (snd (add_channel cid channel pid dn w)))
      as [->|[k0 [u [Hs0 [_ [_ ->]]]]]]; [exact A2|].
    assert (k0 = k) by congruence. subst k0.
    unfold Dict.mem. now rewrite get_sort_keys, get_set_same.
  - rewrite R2, A3. reflexivity.
Qed.

Lemma add_then_remove_witness :
  let w1 := snd (add_channel "dave" "telegram" "999999" None owned) in
  let w2 := snd (remove_channel "dave" "telegram" "999999" w1) in
  channels_of "dave" (store w2) = channels_of "dave" (store owned) /\
  Dict.mem "dave" (store w2) = true /\
  saves w2 = 2 + saves owned.
Proof.
  apply (add_then_remove "dave" "telegram" "999999" None owned "dave").
  - reflexivity.
  - simpl. tauto.
Defined.

(** X19: after [add_channel] has given an unmapped channel string to an id,
    the resolver returns that id for the pair, without writing. *)
Theorem add_then_resolve cid channel pid dn on w k :
  _sanitize_canonical_id cid = Ok k ->
  find_mapped (channel ++ ":" ++ pid) (store w) = None ->
  let w1 := snd (add_channel cid channel pid dn w) in
  resolve_canonical_id channel pid on w1 = (Ok k, w1).
Proof.
  intros Hs Hf w1. subst w1. apply resolve_mapped.
  pose proof (proj1 (find_mapped_none _ _) Hf) as Hz.
  destruct (Dict.get k (store w)) as [u|] eqn:Hg.
  - rewrite (add_channel_known _ _ _ _ _ _ _ Hs Hg).
    rewrite (unmapped_not_held _ _ _ _ Hf Hg).
    rewrite store_save. cbn [set_identity identities]. fold (store w).
    apply found_after_set; [exact Hz|].
    cbn. apply in_or_app. right. now left.
  - rewrite (add_channel_new _ _ _ _ _ _ Hs Hg).
    rewrite store_save. cbn [set_identity identities]. fold (store w).
    apply found_after_set; [|now left].
    now apply holders_create.
Qed.

Lemma add_then_resolve_witness :
  let w1 := snd (add_channel "Alice" "discord" "alice#1234" None owned) in
  resolve_canonical_id "discord" "alice#1234" None w1 = (Ok "alice", w1).
Proof.
  apply (add_then_resolve "Alice" "discord" "alice#1234" None None owned
                          "alice"); reflexivity.
Defined.

(** X20: after [remove_channel] has taken a channel string off the only
    entry that held it, and held it once, a contact that is no owner
    candidate resolves to the stranger id again. *)
Theorem remove_then_resolve cid channel pid on w k u :
  _sanitize_canonical_id cid = Ok k ->
  Dict.get k (store w) = Some u ->
  count_occ string_dec (UserData.channels u) (channel ++ ":" ++ pid) = 1 ->
  Dict.count (holds (channel ++ ":" ++ pid)) (store w) <= 1 ->
  let w1 := snd (remove_channel cid channel pid w) in
  ~ In pid (owner_candidates on w1) ->
  resolve_canonical_id channel pid on w1
  = (Ok ("stranger:" ++ channel ++ ":" ++ pid), w1).
Proof.
  intros Hs Hg Hocc Hu w1 Hc. subst w1.
  set (c := channel ++ ":" ++ pid) in *.
  assert (Hin : In c (UserData.channels u))
    by (apply (count_occ_In string_dec); lia).
  apply resolve_stranger; [|now apply mem_false].
  fold c. apply find_mapped_none.
  rewrite (remove_channel_known _ _ _ _ _ _ Hs Hg). fold c.
  rewrite (proj2 (mem_In _ _) Hin), store_save, count_sort_keys.
  cbn [set_identity identities]. fold (store w).
  match goal with
  | [ |- Dict.count _ (Dict.set k ?u' _) = 0 ] =>
    pose proof (count_set (holds c) k u' (store w)) as E;
    change (holds c (k, u')) with (Py.mem c (UserData.channels u')) in E
  end.
  rewrite Hg in E.
  change (holds c (k, u)) with (Py.mem c (UserData.channels u)) in E.
  rewrite (proj2 (mem_In _ _) Hin) in E. cbn [with_channels
    UserData.set_updated_at UserData.set_channels UserData.channels] in E.
  assert (Hout : Py.mem c (Py.remove_first c (UserData.channels u)) = false).
  { apply mem_false. intros Hin'. apply (count_occ_In string_dec) in Hin'.
    rewrite count_remove_first, Hocc in Hin'.
    destruct (string_dec c c); [simpl in Hin'; lia|congruence]. }
  rewrite Hout in E. simpl in E. lia.
Qed.

Lemma remove_then_resolve_witness :
  let w1 := snd (remove_channel "test" "telegram" "1234567" owned) in
  resolve_canonical_id "telegram" "1234567" (Some []) w1
  = (Ok "stranger:telegram:1234567", w1).
Proof.
  refine (remove_then_resolve "test" "telegram" "1234567" (Some []) owned
            "test"
            (UserData.mk "test" true "Test" ["telegram:1234567"]
                         "2026-01-01T00:00:00+00:00Z"
                         "2026-01-01T00:00:00+00:00Z") _ _ _ _ _);
    try reflexivity.
  simpl. tauto.
Defined.

(* ================================================================= *)
(** * Stores the code writes *)

Lemma in_set (k : string) (v : UserData.t) ids e :
  In e (Dict.set k v ids) -> e = (k, v) \/ In e ids.
Proof.
  induction ids as [|[k0 v0] t IH]; simpl.
  - intros [<-|[]]. now left.
  - destruct (String.eqb k0 k); simpl.
    + intros [<-|H]; auto.
    + intros [<-|H]; auto. destruct (IH H); auto.
Qed.

Lemma NoDup_remove_first x l : NoDup l -> NoDup (Py.remove_first x l).
Proof.
  induction 1 as [|z t Hz Hnd IH]; simpl; [constructor|].
  destruct (String.eqb x z); [exact Hnd|].
  constructor; [|exact IH]. intros Hin. apply Hz.
  now apply in_remove_first in Hin.
Qed.

Lemma NoDup_snoc (x : string) l : NoDup l -> ~ In x l -> NoDup (l ++ [x]).
Proof.
  intros Hnd Hx. apply NoDup_app; [exact Hnd|repeat constructor; easy|].
  intros y Hy [<-|[]]. contradiction.
Qed.

Lemma pick_owner_shape md oc :
  pick_owner_name md = Ok oc ->
  all_chars allowed oc = true /\ oc <> "" /\ String.length oc <= 64 /\
  starts_in separator oc = false.
Proof.
  assert (D : all_chars allowed "owner" = true /\ "owner" <> "" /\
              String.length "owner" <= 64 /\
              starts_in separator "owner" = false)
    by (repeat split; [discriminate | simpl; lia]).
  unfold pick_owner_name.
  destruct md as [doc|]; [|now intros [= <-]].
  destruct (name_words doc) as [[|first rest]|]; try discriminate.
  - apply sanitize_shape.
  - now intros [= <-].
Qed.

(** The entries of a store are all as the code writes them. *)
Lemma entries_set k u ids :
  (forall e, In e ids -> entry_ok e) -> entry_ok (k, u) ->
  forall e, In e (Dict.set k u ids) -> entry_ok e.
Proof.
  intros Hall Hnew e Hin. destruct (in_set _ _ _ _ Hin) as [->|H]; auto.
Qed.

Lemma entries_sort ids :
  (forall e, In e ids -> entry_ok e) ->
  forall e, In e (Dict.sort_keys ids) -> entry_ok e.
Proof. intros Hall e Hin. apply Hall. now apply in_sort_keys. Qed.

Lemma entry_with_channels k u cs stamp :
  entry_ok (k, u) -> NoDup cs -> entry_ok (k, with_channels cs stamp u).
Proof.
  intros [Hc [Hk _]] Hnd. repeat split; try apply Hk; auto.
Qed.

Lemma resolve_entries channel pid on w :
  (forall e, In e (store w) -> entry_ok e) ->
  forall e,
    In e (store (snd (resolve_canonical_id channel pid on w))) -> entry_ok e.
Proof.
  intros Hall.
  destruct (resolve_store channel pid on w)
    as [->|[Hf [[oc [u [_ [_ [Hg ->]]]]]|[oc [_ [Hp ->]]]]]]; [exact Hall|..];
    apply entries_sort.
  - apply entries_set; [exact Hall|].
    apply entry_with_channels; [apply Hall; now apply get_in|].
    apply NoDup_snoc.
    + apply (Hall (oc, u)). now apply get_in.
    + apply mem_false. now apply (unmapped_not_held _ _ _ _ Hf Hg).
  - pose proof (pick_owner_shape _ _ Hp) as Hk.
    assert (F : entry_ok (oc, fresh_owner oc w))
      by (repeat split; try apply Hk; constructor).
    repeat apply entries_set; auto.
    apply entry_with_channels; [exact F|]. repeat constructor. easy.
Qed.

Lemma add_channel_entries cid channel pid dn w :
  (forall e, In e (store w) -> entry_ok e) ->
  forall e,
    In e (store (snd (add_channel cid channel pid dn w))) -> entry_ok e.
Proof.
  intros Hall.
  destruct (add_channel_store cid channel pid dn w)
    as [->|[k [Hs [[u [Hg [Hm ->]]]|[_ ->]]]]]; [exact Hall|..];
    apply entries_sort.
  - apply entries_set; [exact Hall|].
    apply entry_with_channels; [apply Hall; now apply get_in|].
    apply NoDup_snoc.
    + apply (Hall (k, u)). now apply get_in.
    + now apply mem_false.
  - pose proof (sanitize_shape _ _ Hs) as Hk.
    assert (F : entry_ok (k, fresh_user k dn w))
      by (repeat split; try apply Hk; constructor).
    repeat apply entries_set; auto.
    apply entry_with_channels; [exact F|]. repeat constructor. easy.
Qed.

Lemma remove_channel_entries cid channel pid w :
  (forall e, In e (store w) -> entry_ok e) ->
  forall e,
    In e (store (snd (remove_channel cid channel pid w))) -> entry_ok e.
Proof.
  intros Hall.
  destruct (remove_channel_store cid channel pid w)
    as [->|[k [u [_ [Hg [_ ->]]]]]]; [exact Hall|].
  apply entries_sort. apply entries_set; [exact Hall|].
  apply entry_with_channels; [apply Hall; now apply get_in|].
  apply NoDup_remove_first. apply (Hall (k, u)). now apply get_in.
Qed.

Lemma reachable_invariant w :
  reachable w ->
  NoDup (Dict.keys (store w)) /\ keys_sorted (store w) = true /\
  (forall e, In e (store w) -> entry_ok e) /\
  at_most_one_owner (store w).
Proof.
  assert (Hk : forall ids,
             (forall e, In e ids -> entry_ok e) -> keys_nonempty ids).
  { intros ids Hall k Hin. unfold Dict.keys in Hin.
    apply in_map_iff in Hin. destruct Hin as [e [<- Hin]].
    apply (Hall e Hin). }
  induction 1 as [w D Me
                 | md w _ IH
                 | channel pid on w _ [Hnd [Hs [He Ho]]]
                 | cid channel pid dn w _ [Hnd [Hs [He Ho]]]
                 | cid channel pid w _ [Hnd [Hs [He Ho]]]].
  - rewrite (store_fresh _ D Me). repeat apply conj.
    + apply NoDup_nil.
    + reflexivity.
    + intros e [].
    + unfold at_most_one_owner, Dict.count. simpl. lia.
  - exact IH.
  - repeat apply conj.
    + now apply resolve_NoDup.
    + destruct (resolve_store channel pid on w)
        as [->|[_ [[oc [u [_ [_ [_ ->]]]]]|[oc [_ [_ ->]]]]]];
        [exact Hs|apply sorted_sort..].
    + now apply resolve_entries.
    + apply resolve_owners; auto.
  - repeat apply conj.
    + now apply add_channel_NoDup.
    + destruct (add_channel_store cid channel pid dn w)
        as [->|[k [_ [[u [_ [_ ->]]]|[_ ->]]]]];
        [exact Hs|apply sorted_sort..].
    + now apply add_channel_entries.
    + now apply add_channel_owners.
  - repeat apply conj.
    + now apply remove_channel_NoDup.
    + destruct (remove_channel_store cid channel pid w)
        as [->|[k [u [_ [_ [_ ->]]]]]]; [exact Hs|apply sorted_sort].
    + now apply remove_channel_entries.
    + now apply remove_channel_owners.
Qed.

(** X21: in every store reached from a workspace without a map by calls of
    [resolve_canonical_id], [add_channel] and [remove_channel], with any
    arguments and with USER.md edited at will in between, at most one entry
    is flagged owner. *)
Theorem reachable_one_owner w : reachable w -> at_most_one_owner (store w).
Proof. intros R. apply (reachable_invariant w R). Qed.

Lemma reachable_one_owner_witness : at_most_one_owner (store two_claimants).
Proof.
  apply reachable_one_owner. unfold two_claimants.
  do 2 apply reach_add. now apply reach_fresh.
Defined.

(** X22: every such store is a well-formed map: the keys are pairwise
    distinct and in sorted order, every entry is filed under its own
    [canonical_id], the id has the sanitizer's shape (allowed characters,
    1 to 64 of them, no leading separator), and no entry lists a channel
    string twice. *)
Theorem reachable_well_formed w :
  reachable w ->
  NoDup (Dict.keys (store w)) /\ keys_sorted (store w) = true /\
  (forall k u, In (k, u) (store w) ->
     UserData.canonical_id u = k /\
     (all_chars allowed k = true /\ k <> "" /\ String.length k <= 64 /\
      starts_in separator k = false) /\
     NoDup (UserData.channels u)).
Proof.
  intros R. destruct (reachable_invariant w R) as [Hnd [Hs [He _]]].
  repeat apply conj; auto. intros k u Hin. exact (He _ Hin).
Qed.

Lemma reachable_well_formed_witness :
  NoDup (Dict.keys (store two_claimants)) /\
  keys_sorted (store two_claimants) = true /\
  (forall k u, In (k, u) (store two_claimants) ->
     UserData.canonical_id u = k /\
     (all_chars allowed k = true /\ k <> "" /\ String.length k <= 64 /\
      starts_in separator k = false) /\
     NoDup (UserData.channels u)).
Proof.
  apply reachable_well_formed. unfold two_claimants.
  do 2 apply reach_add. now apply reach_fresh.
Defined.

(* ================================================================= *)
(** * Saving *)

Lemma channels_differ k c (ids ids' : Identities) :
  count_occ string_dec (channels_of k ids') c
  <> count_occ string_dec (channels_of k ids) c ->
  ids' <> ids.
Proof. intros H E. apply H. now rewrite E. Qed.

Lemma unmapped_not_listed c ids k :
  find_mapped c ids = None ->
  count_occ string_dec (channels_of k ids) c = 0.
Proof.
  intros Hf. unfold channels_of.
  destruct (Dict.get k ids) as [u|] eqn:Hg; [|reflexivity].
  apply count_occ_not_In, mem_false.
  now apply (unmapped_not_held _ _ _ _ Hf Hg).
Qed.

(** X23: each call of [resolve_canonical_id], [add_channel] or
    [remove_channel] either leaves the workspace exactly as it was, or
    saves the map once and the saved store differs from the one it
    loaded: nothing is persisted unless something changed. *)
Theorem saves_only_changes w :
  (forall channel pid on,
     let w1 := snd (resolve_canonical_id channel pid on w) in
     w1 = w \/ (saves w1 = S (saves w) /\ store w1 <> store w)) /\
  (forall cid channel pid dn,
     let w1 := snd (add_channel cid channel pid dn w) in
     w1 = w \/ (saves w1 = S (saves w) /\ store w1 <> store w)) /\
  (forall cid channel pid,
     let w1 := snd (remove_channel cid channel pid w) in
     w1 = w \/ (saves w1 = S (saves w) /\ store w1 <> store w)).
Proof.
  repeat apply conj.
  - intros channel pid on w1. subst w1.
    destruct (resolve_cases channel pid on w)
      as [[k0 [Hf E]]
         |[[Hf [Hc E]]
          |[[Hf [Hc [oc [u [Ho [Hne [Hg E]]]]]]]
           |[[Hf [Hc [Ho [oc [Hp E]]]]]
            |[Hf [Hc [Ho [e' [Hp E]]]]]]]]];
      rewrite E; cbn [snd]; auto; right;
      (split; [now rewrite saves_save|]);
      apply (channels_differ oc (channel ++ ":" ++ pid));
      rewrite (unmapped_not_listed _ _ oc Hf);
      rewrite store_save; cbn [set_identity identities];
      unfold channels_of; rewrite get_sort_keys, get_set_same; cbn.
    + rewrite count_occ_app. simpl.
      destruct (string_dec _ _); [lia|congruence].
    + destruct (string_dec _ _); [lia|congruence].
  - intros cid channel pid dn w1. subst w1.
    destruct (_sanitize_canonical_id cid) as [k|e] eqn:Hs.
    2:{ left. now rewrite (add_channel_invalid _ _ _ _ _ _ Hs). }
    pose proof (add_channel_effect _ channel pid dn w _ Hs) as A.
    cbv zeta in A.
    destruct (Py.mem _ (channels_of k (store w))) eqn:Hm.
    + left. now rewrite A.
    + right. destruct A as [A1 [_ A3]]. split; [exact A3|].
      apply (channels_differ k (channel ++ ":" ++ pid)).
      rewrite A1, count_occ_app. simpl.
      destruct (string_dec _ _); [lia|congruence].
  - intros cid channel pid w1. subst w1.
    destruct (_sanitize_canonical_id cid) as [k|e] eqn:Hs.
    2:{ left. now rewrite (remove_channel_invalid _ _ _ _ _ Hs). }
    pose proof (remove_channel_effect _ channel pid w _ Hs) as A.
    cbv zeta in A.
    destruct (Py.mem _ (channels_of k (store w))) eqn:Hm.
    + right. destruct A as [A1 A2]. split; [exact A2|].
      apply (channels_differ k (channel ++ ":" ++ pid)).
      rewrite A1, count_remove_first.
      apply mem_In, (count_occ_In string_dec) in Hm.
      destruct (string_dec _ _); [lia|congruence].
    + left. now rewrite A.
Qed.

(* ================================================================= *)
(** * The owner's second contact *)

Lemma find_owner_holder ids k u :
  Dict.count owns ids <= 1 ->
  In (k, u) ids -> UserData.is_owner u = true ->
  find_owner ids = Some k.
Proof.
  intros Hu Hin Ho.
  destruct (find_owner ids) as [k'|] eqn:Hf.
  - destruct (find_owner_some _ _ Hf) as [u' [Hin' Ho']].
    assert (E : (k, u) = (k', u'))
      by (apply (count_le_one_unique owns ids); auto).
    now injection E as -> ->.
  - apply find_owner_none in Hf. rewrite count_zero in Hf.
    specialize (Hf _ Hin). unfold owns in Hf. simpl in Hf. congruence.
Qed.

Lemma owners_after_create ids k u' :
  Dict.count owns ids = 0 -> UserData.is_owner u' = true ->
  Dict.count owns (Dict.set k u' ids) = 1.
Proof.
  intros Hz Ho.
  pose proof (count_set owns k u' ids) as E.
  change (owns (k, u')) with (UserData.is_owner u') in E.
  rewrite Ho, Hz in E.
  destruct (Dict.get k ids) as [o|] eqn:G; [|simpl in E; lia].
  rewrite count_zero in Hz. rewrite (Hz _ (get_in _ _ _ G)) in E.
  simpl in E. lia.
Qed.

Lemma user_md_save data w :
  user_md (snd (_save_identity_map data w)) = user_md w.
Proof.
  unfold _save_identity_map. cbn [snd].
  now destruct (_get_identity_map_path w).
Qed.

(** X24: when the owner is registered at a first contact and then writes
    from a second, different, unmapped channel that is an owner candidate
    too, the second call returns the id the first call registered; that
    entry then lists the two channel strings in the order of the contacts,
    and it is the only entry flagged owner. *)
Theorem owner_second_contact ch1 pid1 ch2 pid2 on w oc :
  find_owner (store w) = None ->
  find_mapped (ch1 ++ ":" ++ pid1) (store w) = None ->
  find_mapped (ch2 ++ ":" ++ pid2) (store w) = None ->
  ch1 ++ ":" ++ pid1 <> ch2 ++ ":" ++ pid2 ->
  Py.mem pid1 (owner_candidates on w) = true ->
  Py.mem pid2 (owner_candidates on w) = true ->
  pick_owner_name (user_md w) = Ok oc ->
  let w1 := snd (resolve_canonical_id ch1 pid1 on w) in
  let out := resolve_canonical_id ch2 pid2 on w1 in
  fst out = Ok oc /\
  channels_of oc (store (snd out))
  = [ch1 ++ ":" ++ pid1; ch2 ++ ":" ++ pid2] /\
  Dict.count owns (store (snd out)) = 1.
Proof.
  intros Ho Hf1 Hf2 Hne Hc1 Hc2 Hp w1 out. subst out w1.
  set (c1 := ch1 ++ ":" ++ pid1) in *. set (c2 := ch2 ++ ":" ++ pid2) in *.
  rewrite (resolve_create _ _ _ _ _ Hf1 Hc1 (or_introl Ho) Hp).
  fold c1. cbn [snd].
  set (u2 := with_channels [c1] (stamp_at w 2) (fresh_owner oc w)).
  set (w1 := snd (_save_identity_map _ (ticked 3 w))).
  assert (S1 : store w1
               = Dict.sort_keys
                   (Dict.set oc u2 (Dict.set oc (fresh_owner oc w) (store w))))
    by (subst w1; now rewrite store_save).
  assert (Z1 : Dict.count owns (store w) = 0) by now apply find_owner_none.
  assert (O1 : Dict.count owns (store w1) = 1).
  { rewrite S1, count_sort_keys.
    rewrite (owners_same _ _ (fresh_owner oc w));
      [|apply get_set_same|reflexivity].
    now apply owners_after_create. }
  assert (G1 : Dict.get oc (store w1) = Some u2)
    by (rewrite S1; now rewrite get_sort_keys, get_set_same).
  assert (F1 : find_owner (store w1) = Some oc).
  { apply find_owner_holder with (u := u2); [lia| |reflexivity].
    now apply get_in. }
  assert (M2 : find_mapped c2 (store w1) = None).
  { apply find_mapped_none. rewrite S1, count_sort_keys.
    pose proof (count_set (holds c2) oc u2
                  (Dict.set oc (fresh_owner oc w) (store w))) as E.
    rewrite (holders_create (store w) oc (fresh_owner oc w) c2
                            (proj1 (find_mapped_none _ _) Hf2) eq_refl) in E.
    change (holds c2 (oc, u2)) with (Py.mem c2 [c1]) in E.
    assert (N : Py.mem c2 [c1] = false).
    { apply mem_false. intros [E'|[]]. congruence. }
    rewrite N in E. simpl in E. lia. }
  assert (C2 : Py.mem pid2 (owner_candidates on w1) = true).
  { unfold owner_candidates, _load_owner_numbers in *.
    subst w1. now rewrite user_md_save. }
  rewrite (resolve_reuse _ _ _ _ _ _ M2 C2 F1
                         (pick_owner_nonempty _ _ Hp) G1).
  cbn [fst snd]. rewrite store_save. cbn [set_identity identities].
  fold (store w1). repeat apply conj.
  - reflexivity.
  - unfold channels_of. now rewrite get_sort_keys, get_set_same.
  - rewrite count_sort_keys.
    now rewrite (owners_same _ _ u2).
Qed.

Lemma owner_second_contact_witness :
  let w0 := fresh (Some named_profile) frozen_clock in
  let w1 := snd (resolve_canonical_id "telegram" "123456789"
                   (Some ["123456789"; "+1234567890"]) w0) in
  let out := resolve_canonical_id "whatsapp" "+1234567890"
               (Some ["123456789"; "+1234567890"]) w1 in
  fst out = Ok "test" /\
  channels_of "test" (store (snd out))
  = ["telegram:123456789"; "whatsapp:+1234567890"] /\
  Dict.count owns (store (snd out)) = 1.
Proof.
  apply (owner_second_contact
           "telegram" "123456789" "whatsapp" "+1234567890"
           (Some ["123456789"; "+1234567890"])
           (fresh (Some named_profile) frozen_clock) "test");
    try reflexivity.
  discriminate.
Defined.

(* ================================================================= *)
(** * Ids with one normal form *)

(** X25: the channel manager and the queries see an id through the
    sanitizer only: two ids the sanitizer maps to the same result, such as
    "Alice" and "alice", are interchangeable in [add_channel],
    [remove_channel], [get_channels] and [is_owner]. *)
Theorem same_normal_form_same_user a b k channel pid dn w :
  _sanitize_canonical_id a = Ok k ->
  _sanitize_canonical_id b = Ok k ->
  add_channel a channel pid dn w = add_channel b channel pid dn w /\
  remove_channel a channel pid w = remove_channel b channel pid w /\
  get_channels a w = get_channels b w /\
  is_owner a w = is_owner b w.
Proof.
  intros Ha Hb. repeat apply conj.
  - unfold add_channel, bind, lift. now rewrite Ha, Hb.
  - unfold remove_channel, bind, lift. now rewrite Ha, Hb.
  - now rewrite (get_channels_run _ _ _ Ha), (get_channels_run _ _ _ Hb).
  - now rewrite (is_owner_run _ _ _ Ha), (is_owner_run _ _ _ Hb).
Qed.

Lemma same_normal_form_same_user_witness :
  add_channel "Test" "discord" "t#1" None owned
  = add_channel "__test!" "discord" "t#1" None owned /\
  remove_channel "Test" "discord" "t#1" owned
  = remove_channel "__test!" "discord" "t#1" owned /\
  get_channels "Test" owned = get_channels "__test!" owned /\
  is_owner "Test" owned = is_owner "__test!" owned.
Proof.
  apply (same_normal_form_same_user "Test" "__test!" "test"); reflexivity.
Defined.

(* ================================================================= *)
(** * identity init *)

Lemma cmd_init_world force w :
  snd (cmd_init force w)
  = if (path_exists (_get_identity_map_path w) w && negb force)%bool
    then w
    else write_path (_get_identity_map_path w)
                    (Json (Some "1.0") (Some [])) w.
Proof.
  unfold cmd_init.
  destruct (path_exists _ w && negb force)%bool; [reflexivity|].
  destruct (user_md w) as [doc|]; [|reflexivity].
  now destruct (name_words doc) as [[|first rest]|].
Qed.

(** X26: without --force, init protects whatever map file the workspace
    has, the data file or the legacy one, parseable or not: it prints the
    two refusal lines, returns 1 and writes nothing. *)
Theorem init_keeps_existing_map w :
  data_file w <> None \/ memory_file w <> None ->
  cmd_init false w
  = ([AlreadyExists (_get_identity_map_path w); UseForce], Ok 1, w).
Proof.
  intros H. unfold cmd_init, path_exists, read_path, _get_identity_map_path.
  destruct (data_file w), (memory_file w); try reflexivity.
  destruct H; congruence.
Qed.

Lemma init_keeps_existing_map_witness :
  cmd_init false corrupted = ([AlreadyExists DataPath; UseForce], Ok 1,
                              corrupted).
Proof.
  apply (init_keeps_existing_map corrupted). left. discriminate.
Defined.

(** X27: with --force, or in a workspace without map file, init leaves an
    empty version "1.0" map in the file the store functions select, and
    the other file as it was; every contact that is no owner candidate then
    resolves to its stranger id, whatever was mapped before.  The exit code
    is 0, unless the profile name is blank: then the IndexError is raised
    after the map has been written. *)
Theorem init_resets_map force w :
  force = true \/ (data_file w = None /\ memory_file w = None) ->
  let w1 := snd (cmd_init force w) in
  _load_identity_map w1 = mkMap (Some "1.0") [] /\
  _get_identity_map_path w1 = _get_identity_map_path w /\
  (match _get_identity_map_path w with
   | DataPath => memory_file w1 = memory_file w
   | MemoryPath => data_file w1 = data_file w
   end) /\
  (forall channel pid on,
     ~ In pid (owner_candidates on w1) ->
     resolve_canonical_id channel pid on w1
     = (Ok ("stranger:" ++ channel ++ ":" ++ pid), w1)) /\
  (snd (fst (cmd_init force w))
   = match option_map name_words (user_md w) with
     | Some (Some []) => Raise IndexError
     | _ => Ok 0
     end).
Proof.
  intros H w1.
  assert (E : (path_exists (_get_identity_map_path w) w && negb force)%bool
              = false).
  { destruct H as [->|[D Me]]; [apply andb_false_r|].
    unfold path_exists, read_path, _get_identity_map_path.
    rewrite D, Me. reflexivity. }
  assert (W : w1 = write_path (_get_identity_map_path w)
                              (Json (Some "1.0") (Some [])) w)
    by (subst w1; now rewrite cmd_init_world, E).
  assert (L : _load_identity_map w1 = mkMap (Some "1.0") []).
  { rewrite W.
    unfold _load_identity_map, write_path, read_path, _get_identity_map_path.
    destruct (data_file w), (memory_file w); reflexivity. }
  repeat apply conj.
  - exact L.
  - rewrite W. unfold write_path, _get_identity_map_path.
    destruct (data_file w), (memory_file w); reflexivity.
  - rewrite W. unfold write_path.
    now destruct (_get_identity_map_path w).
  - intros channel pid on Hc. apply resolve_stranger.
    + unfold store. now rewrite L.
    + now apply mem_false.
  - unfold cmd_init. rewrite E.
    destruct (user_md w) as [doc|]; [|reflexivity]. simpl.
    now destruct (name_words doc) as [[|first rest]|].
Qed.

Lemma init_resets_map_witness :
  let w1 := snd (cmd_init true owned) in
  _load_identity_map w1 = mkMap (Some "1.0") [] /\
  _get_identity_map_path w1 = _get_identity_map_path owned /\
  (match _get_identity_map_path owned with
   | DataPath => memory_file w1 = memory_file owned
   | MemoryPath => data_file w1 = data_file owned
   end) /\
  (forall channel pid on,
     ~ In pid (owner_candidates on w1) ->
     resolve_canonical_id channel pid on w1
     = (Ok ("stranger:" ++ channel ++ ":" ++ pid), w1)) /\
  (snd (fst (cmd_init true owned))
   = match option_map name_words (user_md owned) with
     | Some (Some []) => Raise IndexError
     | _ => Ok 0
     end).
Proof.
  apply (init_resets_map true owned). left. reflexivity.
Defined.

(* ================================================================= *)
(** * Map files the loader does not get through *)

(** On map files that [open] and [json.load] get through, [Disk] and the
    operations above agree. *)
Lemma disk_load_agrees w :
  Disk._load_identity_map (disk_of_world w) = Ok (_load_identity_map w).
Proof.
  unfold Disk._load_identity_map, _load_identity_map, disk_of_world,
    Disk._get_identity_map_path, _get_identity_map_path, Disk.read_path,
    read_path. simpl.
  destruct (data_file w) as [[|ver [ids|]]|],
           (memory_file w) as [[|ver' [ids'|]]|]; reflexivity.
Qed.

Lemma disk_queries_agree cid w :
  Disk.list_identities (disk_of_world w) = fst (list_identities w) /\
  Disk.get_channels cid (disk_of_world w) = fst (get_channels cid w) /\
  Disk.is_owner cid (disk_of_world w) = fst (is_owner cid w).
Proof.
  unfold Disk.list_identities, Disk.get_channels, Disk.is_owner.
  rewrite disk_load_agrees. repeat split.
  - unfold get_channels, bind, lift, gets.
    destruct (_sanitize_canonical_id cid) as [k|e]; [|reflexivity].
    now destruct (Dict.get k _).
  - unfold is_owner, bind, lift, gets.
    destruct (_sanitize_canonical_id cid) as [k|e]; [|reflexivity].
    now destruct (Dict.get k _).
Qed.

(** C7: a data/identity-map.json whose bytes are not text is present and
    unparseable, yet [_load_identity_map] does not return the empty map: the
    UnicodeDecodeError of [json.load] is none of the two exceptions its
    handler names, so it escapes, and [list_identities], [get_channels] and
    [is_owner] raise it, also for an id the sanitizer accepts.  A file
    holding the JSON text "null" makes them raise TypeError in the same
    way. *)
Theorem undecodable_map_breaks_queries :
  Disk._load_identity_map undecodable_disk = Raise UnicodeDecodeError /\
  Disk.list_identities undecodable_disk = Raise UnicodeDecodeError /\
  Disk.get_channels "alice" undecodable_disk = Raise UnicodeDecodeError /\
  Disk.is_owner "alice" undecodable_disk = Raise UnicodeDecodeError /\
  Disk._load_identity_map null_disk = Raise TypeError /\
  Disk.list_identities null_disk = Raise TypeError /\
  Disk.get_channels "alice" null_disk = Raise TypeError /\
  Disk.is_owner "alice" null_disk = Raise TypeError.
Proof. repeat split. Qed.
